(** * TaskForgeAPI: the task routes ([src/routes/tasks.js])

    A shallow embedding of the Express router of [routes/tasks.js] and
    of the part of the persistence layer its handlers call, followed by
    the properties of the handlers.

    Abstractions made by the embedding:
    - JSON numbers are integers ([Z]); arrays and nested objects do not
      occur as field values.
    - Object ids are opaque strings and every string is an id: a route
      parameter is the string of the id it denotes, and the cast of a
      malformed id is not modelled.
    - The schemas are not part of the sources.  They are modelled from
      the data model of the specification: [title] is a required text,
      [description] a text, [dueDate] a date, [completed] a boolean,
      [team] a reference; the other fields hold the values they are
      given.  A date is represented by its time value in
      milliseconds, as [createdAt] is, and how a date string is read
      is left to the environment of the request ([parse_date]).
    - The collections are lists in insertion order (the "natural" order
      a query without sort returns).
    - An [await] on the store either completes or throws; which of the
      two is decided by the environment of the request ([db_up]).
    - A request carries one of the four methods the file registers
      handlers for. *)

From stdpp Require Import base option list sorting strings pretty gmap.
From Stdlib Require Import ZArith Ascii String.

Local Open Scope Z_scope.
Local Open Scope string_scope.

(** ** JavaScript values carried by request bodies and documents *)

Inductive value : Type :=
  | VUndefined
  | VNull
  | VBool (b : bool)
  | VNum (n : Z)
  | VStr (s : string).

#[global] Instance value_eq_dec : EqDecision value.
Proof. solve_decision. Defined.

#[global] Instance value_inhabited : Inhabited value := populate VUndefined.

(** [!v] is [negb (truthy v)]: the falsy values are [undefined], [null],
    [false], [0] and the empty string. *)
Definition truthy (v : value) : bool :=
  match v with
  | VUndefined | VNull => false
  | VBool b => b
  | VNum n => negb (Z.eqb n 0)
  | VStr s => negb (String.eqb s "")
  end.

(** A parsed JSON object: keys to values.  Reading a key the object does
    not have yields [undefined], as the destructuring
    [const { title, ... } = req.body] does. *)
Definition field (o : gmap string value) (k : string) : value :=
  default VUndefined (o !! k).

(** ** Documents *)

(** Modelled from the spec: the Task schema ([models/task.js] is not part
    of the sources).  A document carries the fields of section 3 of the
    specification; [completed] defaults to [false], [createdAt] is set
    when the document is constructed, [user] is always set. *)
Record Task : Type := mkTask {
  _id : string;
  title : value;
  description : value;
  dueDate : value;
  priority : value;
  completed : value;
  workspace : value;
  user : string;
  team : value;
  createdAt : Z
}.

#[global] Instance Task_eq_dec : EqDecision Task.
Proof. solve_decision. Defined.

(** Modelled from the spec: the Team schema ([models/team.js]); a team
    exposes its id and the identifiers of its members. *)
Record Team : Type := mkTeam {
  team_id : string;
  members : list string
}.

#[global] Instance Team_eq_dec : EqDecision Team.
Proof. solve_decision. Defined.

(** Modelled from the spec: the User schema ([models/user.js]); only the
    id and the username are consumed. *)
Record User : Type := mkUser {
  user_id : string;
  username : string
}.

#[global] Instance User_eq_dec : EqDecision User.
Proof. solve_decision. Defined.

(** The persistence store: the three collections. *)
Record store : Type := mkStore {
  tasks : list Task;
  teams : list Team;
  users : list User
}.

#[global] Instance store_eq_dec : EqDecision store.
Proof. solve_decision. Defined.

Definition set_tasks (st : store) (l : list Task) : store :=
  {| tasks := l; teams := teams st; users := users st |}.

(** What the outside world contributes to the handling of one request:
    the clock ([Date.now]), the object id the driver generates for a new
    document, whether the store answers, and the time value the runtime
    reads from a date string (none when the string is not a date). *)
Record env : Type := mkEnv {
  now : Z;
  fresh_id : string;
  db_up : bool;
  parse_date : string → option Z
}.

(** ** Store computations: state and exceptions *)

Inductive result (A : Type) : Type :=
  | Ok (a : A)
  | Throw (msg : string).
Arguments Ok {A} a.
Arguments Throw {A} msg.

Definition M (A : Type) : Type := env → store → result A * store.

Definition ret {A} (a : A) : M A := λ _ st, (Ok a, st).

Definition bind {A B} (m : M A) (k : A → M B) : M B :=
  λ e st,
    match m e st with
    | (Ok a, st') => k a e st'
    | (Throw msg, st') => (Throw msg, st')
    end.

Notation "'let*' x := m 'in' k" := (bind m (λ x, k))
  (at level 10, x name, m at level 100, k at level 200,
   format "'[v' 'let*'  x  :=  m  'in' '/' k ']'").

(** One round trip to the store: [f] runs when the store answers, the
    call throws (and changes nothing) when it does not. *)
Definition round_trip {A} (f : env → store → A * store) : M A :=
  λ e st,
    if db_up e then let '(a, st') := f e st in (Ok a, st')
    else (Throw "store unavailable", st).

(** ** The Task schema: casting and validation *)

(** Modelled from the spec: a text field ([title], [description]).  A
    string is kept; a number or a boolean is turned into its text;
    [null] and [undefined] stay. *)
Definition cast_string (v : value) : value :=
  match v with
  | VUndefined => VUndefined
  | VNull => VNull
  | VBool b => VStr (if b then "true" else "false")
  | VNum n => VStr (pretty n)
  | VStr s => VStr s
  end.

(** Modelled from the spec: [title] is required: a text that is not
    empty. *)
Definition required_text (v : value) : bool :=
  match v with
  | VStr s => negb (String.eqb s "")
  | _ => false
  end.

(** Modelled from the spec: the boolean field [completed].  The values
    that stand for true and for false are cast, [null] and [undefined]
    stay, any other value is a cast error. *)
Definition cast_boolean (v : value) : option value :=
  match v with
  | VUndefined => Some VUndefined
  | VNull => Some VNull
  | VBool b => Some (VBool b)
  | VNum n =>
      if Z.eqb n 1 then Some (VBool true)
      else if Z.eqb n 0 then Some (VBool false)
      else None
  | VStr s =>
      if String.eqb s "true" || String.eqb s "1" || String.eqb s "yes"
      then Some (VBool true)
      else if String.eqb s "false" || String.eqb s "0" || String.eqb s "no"
      then Some (VBool false)
      else None
  end.

(** The largest time value of a date, in milliseconds. *)
Definition max_time : Z := 8640000000000000.

(** Modelled from the spec: the date field [dueDate].  [null] and the
    empty string give [null]; a number is a time value when it is in
    range; a string is read by the runtime; a boolean, or a string that
    is not a date, is a cast error. *)
Definition cast_date (e : env) (v : value) : option value :=
  match v with
  | VUndefined => Some VUndefined
  | VNull => Some VNull
  | VBool _ => None
  | VNum n =>
      if Z.leb (- max_time) n && Z.leb n max_time then Some (VNum n)
      else None
  | VStr s =>
      if String.eqb s "" then Some VNull
      else VNum <$> parse_date e s
  end.

(** Modelled from the spec: the reference field [team].  An id is a
    string; a number or a boolean is a cast error. *)
Definition cast_id (v : value) : option value :=
  match v with
  | VUndefined => Some VUndefined
  | VNull => Some VNull
  | VStr s => Some (VStr s)
  | VBool _ | VNum _ => None
  end.

(** Modelled from the spec: the document a new task is stored as: the
    fields given to [new Task] cast, the title required.  [None] is a
    validation error. *)
Definition cast_new (e : env) (t : Task) : option Task :=
  if required_text (cast_string (title t)) then
    match cast_date e (dueDate t), cast_id (team t) with
    | Some due, Some ref =>
        Some {| _id := _id t;
                title := cast_string (title t);
                description := cast_string (description t);
                dueDate := due; priority := priority t;
                completed := completed t;
                workspace := workspace t; user := user t; team := ref;
                createdAt := createdAt t |}
    | _, _ => None
    end
  else None.

(** Modelled from the spec: the document a loaded task is stored as
    after the five keys of the update were assigned to it: the typed
    ones cast, the title required.  [None] is a validation error. *)
Definition cast_assigned (e : env) (t : Task) : option Task :=
  if required_text (cast_string (title t)) then
    match cast_date e (dueDate t), cast_boolean (completed t) with
    | Some due, Some flag =>
        Some {| _id := _id t;
                title := cast_string (title t);
                description := cast_string (description t);
                dueDate := due; priority := priority t;
                completed := flag;
                workspace := workspace t; user := user t; team := team t;
                createdAt := createdAt t |}
    | _, _ => None
    end
  else None.

(** A call that fails before the store is reached. *)
Definition throw {A} (msg : string) : M A := λ _ st, (Throw msg, st).

(** ** The model layer: what the handlers call on [Task] and [Team] *)

Definition has_id (id : string) (t : Task) : bool := String.eqb (_id t) id.

(** [new Task({ title, description, dueDate, priority, user, team,
    workspace })]: a key the handler leaves out is passed as [undefined].
    The id is generated, [completed] and [createdAt] take their
    defaults.  Constructing the document does not touch the store. *)
Definition new_Task
    (title description dueDate priority : value) (user : string)
    (team workspace : value) : M Task :=
  λ e st,
    (Ok {| _id := fresh_id e;
           title := title; description := description;
           dueDate := dueDate; priority := priority;
           completed := VBool false;
           workspace := workspace; user := user; team := team;
           createdAt := now e |}, st).

(** [Task.find(filter)] *)
Definition Task_find (filter : Task → bool) : M (list Task) :=
  round_trip (λ _ st, (List.filter filter (tasks st), st)).

(** [Task.findById(id)] *)
Definition Task_findById (id : string) : M (option Task) :=
  round_trip (λ _ st, (List.find (has_id id) (tasks st), st)).

(** [save()] on a document made by [new Task]: the document is
    validated, and the call throws without reaching the store when it
    does not pass; otherwise it is inserted, as cast, at the end of the
    collection, and the call resolves to it. *)
Definition Task_insert (t : Task) : M Task :=
  λ e,
    match cast_new e t with
    | Some t' => round_trip (λ _ st, (t', set_tasks st (tasks st ++ [t']))) e
    | None => throw "Task validation failed" e
    end.

(** Replace the first document carrying [id] by [t']. *)
Fixpoint replace_doc (id : string) (t' : Task) (l : list Task) : list Task :=
  match l with
  | [] => []
  | t :: l' => if has_id id t then t' :: l' else t :: replace_doc id t' l'
  end.

(** Remove the first document carrying [id]. *)
Fixpoint remove_doc (id : string) (l : list Task) : list Task :=
  match l with
  | [] => []
  | t :: l' => if has_id id t then l' else t :: remove_doc id l'
  end.

(** [save()] on a document that was loaded from the collection and
    assigned to: the document is validated, and the call throws without
    reaching the store when it does not pass; otherwise the stored
    document with the same [_id] is updated to it, as cast, and the call
    resolves to the document. *)
Definition Task_save (t : Task) : M Task :=
  λ e,
    match cast_assigned e t with
    | Some t' =>
        round_trip
          (λ _ st, (t', set_tasks st (replace_doc (_id t') t' (tasks st)))) e
    | None => throw "Task validation failed" e
    end.

(** [task.deleteOne()] *)
Definition Task_deleteOne (t : Task) : M unit :=
  round_trip (λ _ st, (tt, set_tasks st (remove_doc (_id t) (tasks st)))).

Definition set_completed (t : Task) (v : value) : Task :=
  {| _id := _id t; title := title t; description := description t;
     dueDate := dueDate t; priority := priority t;
     completed := v;
     workspace := workspace t; user := user t; team := team t;
     createdAt := createdAt t |}.

(** The update document [{ completed }]: a key whose value is
    [undefined] is dropped from an update, any other value is set. *)
Definition apply_completed (v : value) (t : Task) : Task :=
  match v with
  | VUndefined => t
  | _ => set_completed t v
  end.

(** [Task.findByIdAndUpdate(id, { completed }, { new: true })]: the
    update is cast first, and the call throws without reaching the store
    when [completed] is not a boolean; otherwise it resolves to the
    document after the update, or to [null]. *)
Definition Task_findByIdAndUpdate (id : string) (v : value)
  : M (option Task) :=
  match cast_boolean v with
  | Some flag =>
      round_trip (λ _ st,
        match List.find (has_id id) (tasks st) with
        | Some t =>
            let t' := apply_completed flag t in
            (Some t', set_tasks st (replace_doc id t' (tasks st)))
        | None => (None, st)
        end)
  | None => throw "Cast to Boolean failed"
  end.

(** [Team.findById(id)] *)
Definition Team_findById (id : string) : M (option Team) :=
  round_trip (λ _ st,
    (List.find (λ g, String.eqb (team_id g) id) (teams st), st)).

(** [team.members.includes(userId)] *)
Definition includes (l : list string) (x : string) : bool :=
  existsb (String.eqb x) l.

(** A task whose [user] reference has been populated with the username
    ([null] when the user document does not exist). *)
Record PopulatedTask : Type := mkPopulated {
  doc : Task;
  user_ref : option User
}.

#[global] Instance PopulatedTask_eq_dec : EqDecision PopulatedTask.
Proof. solve_decision. Defined.

Definition populate_user (us : list User) (t : Task) : PopulatedTask :=
  {| doc := t;
     user_ref := List.find (λ u, String.eqb (user_id u) (user t)) us |}.

(** [Task.find({ team: teamId }).populate('user', 'username')] *)
Definition Task_find_populate (filter : Task → bool) : M (list PopulatedTask) :=
  round_trip (λ _ st,
    (List.map (populate_user (users st)) (List.filter filter (tasks st)), st)).

(** ** Ordering of values under [sort]

    The store compares values of different types by type first:
    null and missing fields, then numbers, then strings, then
    booleans.  [value_leb v w] is [v <= w] in that order. *)
Definition type_rank (v : value) : nat :=
  match v with
  | VUndefined | VNull => 0
  | VNum _ => 1
  | VStr _ => 2
  | VBool _ => 3
  end.

Definition value_leb (v w : value) : bool :=
  match v, w with
  | VNum a, VNum b => Z.leb a b
  | VStr a, VStr b => String.leb a b
  | VBool a, VBool b => implb a b
  | _, _ => Nat.leb (type_rank v) (type_rank w)
  end.

(** [{ priority: -1 }] and [{ createdAt: -1 }]: [t1] may precede [t2]. *)
Definition priority_desc (t1 t2 : Task) : Prop :=
  value_leb (priority t2) (priority t1) = true.

Definition createdAt_desc (t1 t2 : Task) : Prop :=
  (createdAt t2 <= createdAt t1)%Z.

#[global] Instance priority_desc_dec : RelDecision priority_desc.
Proof. intros t1 t2. unfold priority_desc. apply _. Defined.

#[global] Instance createdAt_desc_dec : RelDecision createdAt_desc.
Proof. intros t1 t2. unfold createdAt_desc. apply _. Defined.

(** [Task.find(filter).sort(order)] *)
Definition Task_find_sort (filter : Task → bool)
    (order : relation Task) `{!RelDecision order} : M (list Task) :=
  round_trip (λ _ st, (merge_sort order (List.filter filter (tasks st)), st)).

(** ** Requests and responses *)

Inductive method : Type := GET | POST | PUT | DELETE.

#[global] Instance method_eq_dec : EqDecision method.
Proof. solve_decision. Defined.

(** A request as the router sees it.  [path] is the list of the
    segments below the mount point; [params] is filled in by the route
    that matches. *)
Record request : Type := mkRequest {
  verb : method;
  path : list string;
  params : gmap string string;
  query : gmap string string;
  body : gmap string value;
  credentials : option string
}.

Definition set_params (req : request) (ps : gmap string string) : request :=
  {| verb := verb req; path := path req; params := ps;
     query := query req; body := body req;
     credentials := credentials req |}.

Inductive payload : Type :=
  | JsonTasks (l : list Task)
  | JsonTask (t : Task)
  | JsonPopulated (l : list PopulatedTask)
  | JsonObj (key text : string)
  | Text (s : string).

#[global] Instance payload_eq_dec : EqDecision payload.
Proof. solve_decision. Defined.

Record response : Type := mkResponse {
  status : Z;
  sent : payload
}.

#[global] Instance response_eq_dec : EqDecision response.
Proof. solve_decision. Defined.

(** [res.json(x)], [res.status(n).json(x)], [res.status(n).send(s)] *)
Definition json (p : payload) : response := {| status := 200; sent := p |}.
Definition status_json (n : Z) (p : payload) : response :=
  {| status := n; sent := p |}.
Definition status_send (n : Z) (s : string) : response :=
  {| status := n; sent := Text s |}.

(** [try { ... } catch (err) { ... }] around a handler body. *)
Definition try_catch (m : M response) (h : string → response)
  : env → store → response * store :=
  λ e st,
    match m e st with
    | (Ok r, st') => (r, st')
    | (Throw msg, st') => (h msg, st')
    end.

Definition handler : Type := string → request → env → store → response * store.

(** ** The handlers of [routes/tasks.js]

    Each handler receives [req.user.id] (attached by the auth
    middleware) and the request. *)

Definition owned_by (uid : string) (t : Task) : bool :=
  String.eqb (user t) uid.

Definition in_team (teamId : string) (t : Task) : bool :=
  bool_decide (team t = VStr teamId).

(** [router.get('/', auth, ...)], first registration (lines 11-29). *)
Definition get_root : handler := λ uid req,
  try_catch
    (let sortBy := query req !! "sortBy" in
     let* tasks :=
       (if decide (sortBy = Some "priority") then
          Task_find_sort (owned_by uid) priority_desc
        else if decide (sortBy = Some "dateAdded") then
          Task_find_sort (owned_by uid) createdAt_desc
        else
          Task_find (owned_by uid)) in
     ret (json (JsonTasks tasks)))
    (λ _, status_send 500 "Server Error").

(** [router.post('/', auth, ...)] (lines 34-72). *)
Definition post_root : handler := λ uid req,
  let title := field (body req) "title" in
  let description := field (body req) "description" in
  let dueDate := field (body req) "dueDate" in
  let priority := field (body req) "priority" in
  let workspace := field (body req) "workspace" in
  let team := field (body req) "team" in
  try_catch
    (if decide (workspace = VStr "personal") then
       let* task :=
         new_Task title description dueDate priority uid
           VUndefined workspace in
       let* newTask := Task_insert task in
       ret (json (JsonTask newTask))
     else if decide (workspace = VStr "team") then
       if negb (truthy team) then
         ret (status_json 400
                (JsonObj "msg" "Team ID is required for team workspace"))
       else
         let* task :=
           new_Task title description dueDate priority uid
             team workspace in
         let* newTask := Task_insert task in
         ret (json (JsonTask newTask))
     else
       ret (status_json 400 (JsonObj "msg" "Invalid workspace")))
    (λ _, status_send 500 "Server Error").

(** The object [{ title, description, dueDate, priority, completed }]
    built by the update handler: it has all five keys, each holding what
    the destructuring of the body produced. *)
Record TaskData : Type := mkTaskData {
  td_title : value;
  td_description : value;
  td_dueDate : value;
  td_priority : value;
  td_completed : value
}.

(** [Object.assign(task, taskData)]: every own key of [taskData] is
    assigned to the document. *)
Definition Object_assign (t : Task) (d : TaskData) : Task :=
  {| _id := _id t;
     title := td_title d; description := td_description d;
     dueDate := td_dueDate d; priority := td_priority d;
     completed := td_completed d;
     workspace := workspace t; user := user t; team := team t;
     createdAt := createdAt t |}.

(** Lines 76-77: the five fields destructured from the body and
    gathered again. *)
Definition taskData_of (b : gmap string value) : TaskData :=
  {| td_title := field b "title";
     td_description := field b "description";
     td_dueDate := field b "dueDate";
     td_priority := field b "priority";
     td_completed := field b "completed" |}.

(** [router.put('/:id', auth, ...)] (lines 75-98).  [task.save()]
    resolves to [task] itself, which holds the assigned values as the
    schema cast them: that document is the one sent. *)
Definition put_id : handler := λ uid req,
  let taskData := taskData_of (body req) in
  try_catch
    (let* found := Task_findById (params req !!! "id") in
     match found with
     | None => ret (status_json 404 (JsonObj "msg" "Task not found"))
     | Some task =>
         if negb (String.eqb (user task) uid) then
           ret (status_json 401 (JsonObj "msg" "Not authorized"))
         else
           let task := Object_assign task taskData in
           let* task := Task_save task in
           ret (json (JsonTask task))
     end)
    (λ _, status_send 500 "Server Error").

(** [router.delete('/:id', auth, ...)] (lines 105-125). *)
Definition delete_id : handler := λ uid req,
  try_catch
    (let* found := Task_findById (params req !!! "id") in
     match found with
     | None => ret (status_json 404 (JsonObj "msg" "Task not found"))
     | Some task =>
         if negb (String.eqb (user task) uid) then
           ret (status_json 401 (JsonObj "msg" "Not authorized"))
         else
           let* _ := Task_deleteOne task in
           ret (json (JsonObj "msg" "Task removed"))
     end)
    (λ _, status_send 500 "Server Error").

(** [router.post('/:teamId', auth, ...)] (lines 130-161). *)
Definition post_teamId : handler := λ uid req,
  try_catch
    (let title := field (body req) "title" in
     let description := field (body req) "description" in
     let dueDate := field (body req) "dueDate" in
     let priority := field (body req) "priority" in
     let teamId := params req !!! "teamId" in
     let userId := uid in
     let* found := Team_findById teamId in
     match found with
     | None => ret (status_json 404 (JsonObj "msg" "Team not found"))
     | Some team =>
         if negb (includes (members team) userId) then
           ret (status_json 401
                  (JsonObj "msg"
                     "Not authorized to create tasks within this team"))
         else
           let* newTask :=
             new_Task title description dueDate priority userId
               (VStr teamId) VUndefined in
           let* task := Task_insert newTask in
           ret (json (JsonTask task))
     end)
    (λ _, status_send 500 "Server Error").

(** [router.get('/:teamId', auth, ...)] (lines 166-187). *)
Definition get_teamId : handler := λ uid req,
  try_catch
    (let teamId := params req !!! "teamId" in
     let userId := uid in
     let* found := Team_findById teamId in
     match found with
     | None => ret (status_json 404 (JsonObj "msg" "Team not found"))
     | Some team =>
         if negb (includes (members team) userId) then
           ret (status_json 401
                  (JsonObj "msg"
                     "Not authorized to view tasks within this team"))
         else
           let* tasks := Task_find_populate (in_team teamId) in
           ret (json (JsonPopulated tasks))
     end)
    (λ _, status_send 500 "Server Error").

(** [router.get('/', auth, ...)], second registration (lines 192-210). *)
Definition get_root_again : handler := λ uid req,
  try_catch
    (let sortBy := query req !! "sortBy" in
     let* tasks :=
       (if decide (sortBy = Some "priority") then
          Task_find_sort (owned_by uid) priority_desc
        else if decide (sortBy = Some "dateAdded") then
          Task_find_sort (owned_by uid) createdAt_desc
        else
          Task_find (owned_by uid)) in
     ret (json (JsonTasks tasks)))
    (λ _, status_send 500 "Server Error").

(** [router.put("/:id/status", auth, ...)] (lines 213-233).  The acting
    user is received and not used. *)
Definition put_id_status : handler := λ _ req,
  try_catch
    (let taskId := params req !!! "id" in
     let completed := field (body req) "completed" in
     let* task := Task_findByIdAndUpdate taskId completed in
     match task with
     | None => ret (status_json 404 (JsonObj "message" "Task not found"))
     | Some task => ret (status_json 200 (JsonTask task))
     end)
    (λ _, status_json 500 (JsonObj "message" "Internal server error")).

(** ** The router *)

Inductive segment : Type :=
  | Lit (s : string)
  | Param (name : string).

(** Route paths are matched without regard to the case of ASCII
    letters (the router's default). *)
Definition lower_ascii (c : ascii) : ascii :=
  let n := nat_of_ascii c in
  if (Nat.leb 65 n && Nat.leb n 90)%bool then ascii_of_nat (n + 32) else c.

Fixpoint lower (s : string) : string :=
  match s with
  | EmptyString => EmptyString
  | String c s' => String (lower_ascii c) (lower s')
  end.

(** Match a route path against the segments of a request path,
    collecting the parameters. *)
Fixpoint match_path (p : list segment) (l : list string)
  : option (gmap string string) :=
  match p, l with
  | [], [] => Some ∅
  | Lit s :: p', x :: l' =>
      if String.eqb (lower s) (lower x) then match_path p' l' else None
  | Param name :: p', x :: l' =>
      (λ ps, <[name := x]> ps) <$> match_path p' l'
  | _, _ => None
  end.

Record route : Type := mkRoute {
  route_verb : method;
  route_path : list segment;
  route_handler : handler
}.

(** What becomes of a request handed to the router. *)
Inductive outcome : Type :=
  | Unrouted
  | Rejected
  | Replied (r : response).

(** Modelled from the spec: the auth middleware ([middleware/auth.js] is
    not part of the sources).  It resolves the acting user and lets the
    handler run, or rejects the request before the handler is reached. *)
Definition auth (h : handler) (req : request) (e : env) (st : store)
  : outcome * store :=
  match credentials req with
  | Some uid => let '(r, st') := h uid req e st in (Replied r, st')
  | None => (Rejected, st)
  end.

(** The first registration that matches the method and the path takes
    the request; no handler of this file passes it on. *)
Fixpoint dispatch (rs : list route) (req : request) (e : env) (st : store)
  : outcome * store :=
  match rs with
  | [] => (Unrouted, st)
  | r :: rs' =>
      if decide (route_verb r = verb req) then
        match match_path (route_path r) (path req) with
        | Some ps => auth (route_handler r) (set_params req ps) e st
        | None => dispatch rs' req e st
        end
      else dispatch rs' req e st
  end.

(** The registrations, in the order of the file. *)
Definition router : list route :=
  [ mkRoute GET [] get_root;
    mkRoute POST [] post_root;
    mkRoute PUT [Param "id"] put_id;
    mkRoute DELETE [Param "id"] delete_id;
    mkRoute POST [Param "teamId"] post_teamId;
    mkRoute GET [Param "teamId"] get_teamId;
    mkRoute GET [] get_root_again;
    mkRoute PUT [Param "id"; Lit "status"] put_id_status ].

(** The same registrations without the second [GET '/']. *)
Definition router_without_duplicate : list route :=
  [ mkRoute GET [] get_root;
    mkRoute POST [] post_root;
    mkRoute PUT [Param "id"] put_id;
    mkRoute DELETE [Param "id"] delete_id;
    mkRoute POST [Param "teamId"] post_teamId;
    mkRoute GET [Param "teamId"] get_teamId;
    mkRoute PUT [Param "id"; Lit "status"] put_id_status ].

(** ** Auxiliary definitions used by the statements *)

(** The request as issued by the authenticated user [uid]. *)
Definition as_user (uid : string) (req : request) : request :=
  {| verb := verb req; path := path req; params := params req;
     query := query req; body := body req; credentials := Some uid |}.

(** The two client errors of [POST /]. *)
Definition team_required : response :=
  status_json 400 (JsonObj "msg" "Team ID is required for team workspace").

Definition invalid_workspace : response :=
  status_json 400 (JsonObj "msg" "Invalid workspace").

(** The list [GET /] sends for the documents [l] the query selected. *)
Definition listing (sortBy : option string) (l : list Task) : list Task :=
  if decide (sortBy = Some "priority") then merge_sort priority_desc l
  else if decide (sortBy = Some "dateAdded") then merge_sort createdAt_desc l
  else l.

(** The two fields that are assigned once, at creation. *)
Definition identity (t : Task) : string * Z := (_id t, createdAt t).

(** The position of the registration that takes a request. *)
Fixpoint select (rs : list route) (req : request) : option nat :=
  match rs with
  | [] => None
  | r :: rs' =>
      if decide (route_verb r = verb req) then
        match match_path (route_path r) (path req) with
        | Some _ => Some 0%nat
        | None => S <$> select rs' req
        end
      else S <$> select rs' req
  end.

Definition takes (r : route) (req : request) : Prop :=
  route_verb r = verb req ∧ is_Some (match_path (route_path r) (path req)).

(** Ids are unique in the task collection. *)
Definition unique_ids (st : store) : Prop := NoDup (_id <$> tasks st).

(** What one request can do to the ids of the collection: keep or drop
    some of them, or add the generated id at the end. *)
Definition ids_step (e : env) (st st' : store) : Prop :=
  (_id <$> tasks st') `sublist_of` (_id <$> tasks st)
  ∨ _id <$> tasks st' = ((_id <$> tasks st) ++ [fresh_id e])%list.

Ltac run_handler :=
  unfold get_root, get_root_again, post_root, put_id, delete_id,
    post_teamId, get_teamId, put_id_status, try_catch, bind, ret,
    Task_find, Task_find_sort, Task_findById, Task_insert, Task_save,
    Task_deleteOne, Task_findByIdAndUpdate, Team_findById,
    Task_find_populate, new_Task, throw, round_trip;
  repeat (case_match; simplify_eq/=).

(** A handler that touches the task ids only in these ways and leaves
  the teams and the users alone. *)
Definition well_behaved (h : handler) : Prop :=
  ∀ uid req e st,
    let st' := (h uid req e st).2 in
    ids_step e st st' ∧ teams st' = teams st ∧ users st' = users st.

(** ** What a request may do to the task collection *)

(** The fields of a task no route assigns after creation. *)
Definition protected (t : Task) : string * string * value * value * Z :=
  (_id t, user t, team t, workspace t, createdAt t).

(** The three ways the handlers write to the collection, for the acting
    user [uid]: a document made by [new Task] is appended; the document
    an id resolves to is replaced by one that agrees with it on the
    protected fields; the document an id resolves to, owned by the
    acting user, is removed. *)
Inductive change (uid : string) (e : env) (l : list Task)
  : list Task → Prop :=
  | change_insert (t : Task) :
      _id t = fresh_id e → user t = uid → createdAt t = now e →
      completed t = VBool false →
      change uid e l (l ++ [t])
  | change_replace (id : string) (t t' : Task) :
      List.find (has_id id) l = Some t → protected t' = protected t →
      change uid e l (replace_doc id t' l)
  | change_remove (id : string) (t : Task) :
      List.find (has_id id) l = Some t → user t = uid →
      change uid e l (remove_doc id l).

(** The effect of a handler run: teams and users untouched, and the
    tasks either untouched or changed in one of the three ways under a
    200 response. *)
Definition effect (uid : string) (e : env) (st : store)
    (r : response) (st' : store) : Prop :=
  teams st' = teams st ∧ users st' = users st
  ∧ (tasks st' = tasks st
     ∨ status r = 200 ∧ change uid e (tasks st) (tasks st')).

(** The team an id resolves to. *)
Definition find_team (st : store) (teamId : string) : option Team :=
  List.find (λ g, String.eqb (team_id g) teamId) (teams st).

Definition has_effect (h : handler) : Prop :=
  ∀ uid req e st, effect uid e st (h uid req e st).1 (h uid req e st).2.

(** ** Concrete data used by the examples *)

Module Sample.
Definition world : env :=
  {| now := 1000; fresh_id := "t9"; db_up := true;
     parse_date := λ s, if String.eqb s "1970-01-02" then Some 86400000
                        else None |}.

Definition task (id : string) (owner : string) (prio at_ : Z) : Task :=
  {| _id := id; title := VStr "write report"; description := VStr "draft";
     dueDate := VUndefined; priority := VNum prio;
     completed := VBool false; workspace := VStr "personal";
     user := owner; team := VUndefined; createdAt := at_ |}.

Definition db : store :=
  {| tasks := [task "t1" "alice" 1 10; task "t2" "alice" 5 30;
               task "t3" "alice" 3 20; task "t4" "bob" 9 5];
     teams := [{| team_id := "g1"; members := ["alice"] |}];
     users := [{| user_id := "alice"; username := "Alice" |};
               {| user_id := "bob"; username := "Bob" |}] |}.

Definition req (ps : list (string * string)) (q : list (string * string))
    (b : list (string * value)) : request :=
  {| verb := GET; path := []; params := list_to_map ps;
     query := list_to_map q; body := list_to_map b;
     credentials := None |}.
End Sample.

(** Requests as they reach the router, and an environment in which
    the store does not answer. *)
Module Scenario.
Definition offline : env :=
  {| now := 1000; fresh_id := "t9"; db_up := false;
     parse_date := λ _, None |}.

Definition http (v : method) (p : list string) (q : list (string * string))
    (b : list (string * value)) (who : option string) : request :=
  {| verb := v; path := p; params := ∅;
     query := list_to_map q; body := list_to_map b;
     credentials := who |}.

Definition team_db : store :=
  {| tasks := [Sample.task "t1" "alice" 1 10;
               {| _id := "t5"; title := VStr "retro"; description := VNull;
                  dueDate := VUndefined; priority := VNum 2;
                  completed := VBool false; workspace := VUndefined;
                  user := "carol"; team := VStr "g1"; createdAt := 40 |}];
     teams := [{| team_id := "g1"; members := ["alice"; "carol"] |}];
     users := [{| user_id := "alice"; username := "Alice" |};
               {| user_id := "bob"; username := "Bob" |}] |}.
End Scenario.

(** * Properties *)

(** ** The store operations *)

Section store_lemmas.
Implicit Types (l : list Task) (t : Task) (id : string).

Lemma has_id_true id t : has_id id t = true ↔ _id t = id.
Proof. unfold has_id. apply String.eqb_eq. Qed.

Lemma has_id_false id t : has_id id t = false ↔ _id t ≠ id.
Proof. unfold has_id. apply String.eqb_neq. Qed.

Lemma find_has_id id l t :
  List.find (has_id id) l = Some t → _id t = id ∧ t ∈ l.
Proof.
  intros H. apply List.find_some in H as [Hin Hid].
  split; [by apply has_id_true | by apply list_elem_of_In].
Qed.

Lemma find_has_id_None id l :
  List.find (has_id id) l = None ↔ id ∉ _id <$> l.
Proof.
  induction l as [|t l IH]; csimpl.
  - split; [intros _; apply not_elem_of_nil | done].
  - rewrite not_elem_of_cons. destruct (has_id id t) eqn:E.
    + apply has_id_true in E. split; [done | intros [Hne _]; congruence].
    + apply has_id_false in E. rewrite IH. split; [auto | tauto].
Qed.

Lemma find_replace_doc id t' l t :
  List.find (has_id id) l = Some t → _id t' = id →
  List.find (has_id id) (replace_doc id t' l) = Some t'.
Proof.
  intros Hfind Hid. induction l as [|x l IH]; simpl in *; [done|].
  destruct (has_id id x) eqn:E; simpl.
  - by rewrite (proj2 (has_id_true id t') Hid).
  - rewrite E. auto.
Qed.

Lemma find_replace_doc_ne id id' t' l :
  id' ≠ id → _id t' = id →
  List.find (has_id id') (replace_doc id t' l) = List.find (has_id id') l.
Proof.
  intros Hne Hid. induction l as [|x l IH]; simpl; [done|].
  destruct (has_id id x) eqn:E; simpl.
  - apply has_id_true in E.
    rewrite (proj2 (has_id_false id' t')), (proj2 (has_id_false id' x));
      congruence.
  - by rewrite IH.
Qed.

Lemma replace_doc_ids id t' l :
  _id t' = id → _id <$> replace_doc id t' l = _id <$> l.
Proof.
  intros Hid. induction l as [|x l IH]; csimpl; [done|].
  destruct (has_id id x) eqn:E; csimpl.
  - apply has_id_true in E. congruence.
  - by rewrite IH.
Qed.

Lemma replace_doc_absent id t' l :
  List.find (has_id id) l = None → replace_doc id t' l = l.
Proof.
  induction l as [|x l IH]; simpl; [done|].
  destruct (has_id id x); [done|]. intros H. by rewrite IH.
Qed.

Lemma find_remove_doc id l :
  NoDup (_id <$> l) → List.find (has_id id) (remove_doc id l) = None.
Proof.
  induction l as [|x l IH]; csimpl; [done|].
  rewrite NoDup_cons. intros [Hx Hl].
  destruct (has_id id x) eqn:E; simpl.
  - apply has_id_true in E. apply find_has_id_None. congruence.
  - rewrite E. auto.
Qed.

Lemma find_remove_doc_ne id id' l :
  id' ≠ id →
  List.find (has_id id') (remove_doc id l) = List.find (has_id id') l.
Proof.
  intros Hne. induction l as [|x l IH]; simpl; [done|].
  destruct (has_id id x) eqn:E; simpl.
  - apply has_id_true in E.
    by rewrite (proj2 (has_id_false id' x)) by congruence.
  - by rewrite IH.
Qed.

Lemma remove_doc_sublist id l : remove_doc id l `sublist_of` l.
Proof.
  induction l as [|x l IH]; simpl; [done|].
  destruct (has_id id x).
  - by apply sublist_cons.
  - by apply sublist_skip.
Qed.

Lemma includes_elem_of (xs : list string) (x : string) :
  includes xs x = true ↔ x ∈ xs.
Proof.
  unfold includes. rewrite List.existsb_exists. split.
  - intros (y & Hin & Heq). apply String.eqb_eq in Heq. subst y.
    by apply list_elem_of_In.
  - intros Hin. exists x. split; [by apply list_elem_of_In|].
    apply String.eqb_refl.
Qed.
End store_lemmas.

(** A store call made while the store answers returns what it computes. *)
Lemma round_trip_up {A} (f : env → store → A * store) e st :
  db_up e = true → round_trip f e st = (Ok (f e st).1, (f e st).2).
Proof. intros H. unfold round_trip. rewrite H. by destruct (f e st). Qed.

Lemma round_trip_down {A} (f : env → store → A * store) e st :
  db_up e = false → round_trip f e st = (Throw "store unavailable", st).
Proof. intros H. unfold round_trip. by rewrite H. Qed.

(** ** The schema *)

Section schema_lemmas.
Implicit Types (e : env) (t : Task) (v : value).

(** What a new document keeps and what it takes from the casts. *)
Lemma cast_new_Some e t t' :
  cast_new e t = Some t' →
  required_text (cast_string (title t)) = true
  ∧ cast_date e (dueDate t) = Some (dueDate t')
  ∧ cast_id (team t) = Some (team t')
  ∧ t' = {| _id := _id t; title := cast_string (title t);
            description := cast_string (description t);
            dueDate := dueDate t'; priority := priority t;
            completed := completed t; workspace := workspace t;
            user := user t; team := team t'; createdAt := createdAt t |}.
Proof.
  unfold cast_new. intros H.
  destruct (required_text (cast_string (title t))); [|done].
  destruct (cast_date e (dueDate t)) as [due|]; [|done].
  destruct (cast_id (team t)) as [ref|]; [|done].
  by simplify_eq.
Qed.

Lemma cast_new_valid e t due ref :
  required_text (cast_string (title t)) = true →
  cast_date e (dueDate t) = Some due → cast_id (team t) = Some ref →
  cast_new e t
  = Some {| _id := _id t; title := cast_string (title t);
            description := cast_string (description t);
            dueDate := due; priority := priority t;
            completed := completed t; workspace := workspace t;
            user := user t; team := ref; createdAt := createdAt t |}.
Proof. unfold cast_new. by intros -> -> ->. Qed.

Lemma cast_new_invalid e t :
  required_text (cast_string (title t)) = false
  ∨ cast_date e (dueDate t) = None ∨ cast_id (team t) = None →
  cast_new e t = None.
Proof.
  unfold cast_new. intros [-> | [-> | ->]]; [done | |];
    repeat case_match; done.
Qed.

(** What an updated document keeps and what it takes from the casts. *)
Lemma cast_assigned_Some e t t' :
  cast_assigned e t = Some t' →
  required_text (cast_string (title t)) = true
  ∧ cast_date e (dueDate t) = Some (dueDate t')
  ∧ cast_boolean (completed t) = Some (completed t')
  ∧ t' = {| _id := _id t; title := cast_string (title t);
            description := cast_string (description t);
            dueDate := dueDate t'; priority := priority t;
            completed := completed t'; workspace := workspace t;
            user := user t; team := team t; createdAt := createdAt t |}.
Proof.
  unfold cast_assigned. intros H.
  destruct (required_text (cast_string (title t))); [|done].
  destruct (cast_date e (dueDate t)) as [due|]; [|done].
  destruct (cast_boolean (completed t)) as [flag|]; [|done].
  by simplify_eq.
Qed.



Lemma cast_new_id e t t' : cast_new e t = Some t' → _id t' = _id t.
Proof. intros H. apply cast_new_Some in H as (_ & _ & _ & ->). done. Qed.

Lemma cast_assigned_id e t t' : cast_assigned e t = Some t' → _id t' = _id t.
Proof. intros H. apply cast_assigned_Some in H as (_ & _ & _ & ->). done. Qed.

Lemma Task_insert_valid e st t t' :
  db_up e = true → cast_new e t = Some t' →
  Task_insert t e st = (Ok t', set_tasks st (tasks st ++ [t'])).
Proof. intros Hup H. unfold Task_insert. rewrite H. by rewrite round_trip_up. Qed.

Lemma Task_insert_invalid e st t :
  cast_new e t = None → Task_insert t e st = (Throw "Task validation failed", st).
Proof. intros H. unfold Task_insert. by rewrite H. Qed.

Lemma Task_save_valid e st t t' :
  db_up e = true → cast_assigned e t = Some t' →
  Task_save t e st
  = (Ok t', set_tasks st (replace_doc (_id t) t' (tasks st))).
Proof.
  intros Hup H. unfold Task_save. rewrite H.
  rewrite round_trip_up by done. simpl. by rewrite (cast_assigned_id e t t').
Qed.

Lemma Task_save_invalid e st t :
  cast_assigned e t = None → Task_save t e st = (Throw "Task validation failed", st).
Proof. intros H. unfold Task_save. by rewrite H. Qed.

Lemma cast_new_keeps e t t' :
  cast_new e t = Some t' →
  _id t' = _id t ∧ user t' = user t ∧ createdAt t' = createdAt t
  ∧ completed t' = completed t ∧ workspace t' = workspace t.
Proof. intros H. apply cast_new_Some in H as (_ & _ & _ & ->). done. Qed.

Lemma cast_assigned_keeps e t t' :
  cast_assigned e t = Some t' →
  _id t' = _id t ∧ user t' = user t ∧ team t' = team t
  ∧ workspace t' = workspace t ∧ createdAt t' = createdAt t.
Proof. intros H. apply cast_assigned_Some in H as (_ & _ & _ & ->). done. Qed.

Lemma replace_doc_same (id : string) t (l : list Task) :
  List.find (has_id id) l = Some t → replace_doc id t l = l.
Proof.
  induction l as [|x l IH]; simpl; [done|].
  destruct (has_id id x); [by intros [= ->] | intros H; by rewrite IH].
Qed.
End schema_lemmas.

(** ** Ownership on update and delete *)




(** ** The status route *)

(** C2, as amended.  [PUT /:id/status] makes no ownership check: the
    response and the resulting store are the same whichever
    authenticated user issues the request, at the handler and through
    the router.  For an existing id and a supplied [completed] value
    that is a boolean (or one of the values cast to one, or [null]) the
    answer is 200 with the record after the update: the stored task
    with [completed] set to the value as cast and every other field as
    it was; that record is what the id resolves to afterwards, and
    nothing else in the store changes.  When [completed] is absent the
    answer is 200 with the record as stored.  A value that is not a
    boolean is answered 500 and nothing is written.  When no task has
    the id the answer is 404.  The store is assumed to answer. *)
Theorem status_update_ignores_caller
    (u1 u2 : string) (req : request) (e : env) (st : store) :
  put_id_status u1 req e st = put_id_status u2 req e st
  ∧ (verb req = PUT → (∃ id, path req = [id; "status"]) →
     dispatch router (as_user u1 req) e st
     = dispatch router (as_user u2 req) e st)
  ∧ (db_up e = true →
     let id := params req !!! "id" in
     let v := field (body req) "completed" in
     let st' := (put_id_status u1 req e st).2 in
     (∀ task flag,
        List.find (has_id id) (tasks st) = Some task →
        cast_boolean v = Some flag → flag ≠ VUndefined →
        let updated :=
          {| _id := _id task; title := title task;
             description := description task; dueDate := dueDate task;
             priority := priority task;
             completed := flag;
             workspace := workspace task; user := user task;
             team := team task; createdAt := createdAt task |} in
        (put_id_status u1 req e st).1 = status_json 200 (JsonTask updated)
        ∧ List.find (has_id id) (tasks st') = Some updated
        ∧ (∀ id', id' ≠ id →
             List.find (has_id id') (tasks st')
             = List.find (has_id id') (tasks st))
        ∧ teams st' = teams st ∧ users st' = users st)
     ∧ (∀ task, List.find (has_id id) (tasks st) = Some task →
        v = VUndefined →
        put_id_status u1 req e st = (status_json 200 (JsonTask task), st))
     ∧ (cast_boolean v = None →
        put_id_status u1 req e st
        = (status_json 500 (JsonObj "message" "Internal server error"), st))
     ∧ (List.find (has_id id) (tasks st) = None →
        is_Some (cast_boolean v) →
        put_id_status u1 req e st
        = (status_json 404 (JsonObj "message" "Task not found"), st))).
Proof.
  split; [reflexivity|]. split.
  - intros Hverb [id Hpath].
    unfold router, dispatch, as_user; simpl. rewrite Hverb, Hpath. simpl.
    reflexivity.
  - intros Hup id v st'.
    assert (Hrun : ∀ flag, cast_boolean v = Some flag →
              put_id_status u1 req e st
              = match List.find (has_id id) (tasks st) with
                | Some t =>
                    (status_json 200 (JsonTask (apply_completed flag t)),
                     set_tasks st
                       (replace_doc id (apply_completed flag t) (tasks st)))
                | None =>
                    (status_json 404 (JsonObj "message" "Task not found"), st)
                end).
    { intros flag Hflag.
      unfold put_id_status, try_catch, bind, Task_findByIdAndUpdate.
      fold id v. rewrite Hflag. rewrite round_trip_up by done. simpl.
      by destruct (List.find (has_id id) (tasks st)). }
    split; [|split; [|split]].
    + intros task flag Hfind Hflag Hdef updated.
      destruct (find_has_id _ _ _ Hfind) as [Hid _].
      assert (Happly : apply_completed flag task = updated)
        by (by destruct flag).
      unfold st'. rewrite (Hrun flag Hflag), Hfind, Happly. simpl.
      split; [done|]. split; [by eapply find_replace_doc|].
      split; [|done]. intros id' Hne. by apply find_replace_doc_ne.
    + intros task Hfind Hv.
      rewrite (Hrun VUndefined) by (by rewrite Hv). rewrite Hfind. simpl.
      f_equal. rewrite (replace_doc_same id task) by done. by destruct st.
    + intros Hbad.
      unfold put_id_status, try_catch, bind, Task_findByIdAndUpdate.
      fold v. by rewrite Hbad.
    + intros Hnone [flag Hflag]. by rewrite (Hrun flag Hflag), Hnone.
Qed.

Lemma status_update_ignores_caller_witness :
  let r := {| verb := PUT; path := ["t4"; "status"]; params := ∅;
              query := ∅; body := {[ "completed" := VStr "yes" ]};
              credentials := None |} in
  let r' := set_params r {[ "id" := "t4" ]} in
  let ticked :=
    {| _id := "t4"; title := VStr "write report";
       description := VStr "draft"; dueDate := VUndefined;
       priority := VNum 9; completed := VBool true;
       workspace := VStr "personal"; user := "bob";
       team := VUndefined; createdAt := 5 |} in
  dispatch router (as_user "alice" r) Sample.world Sample.db
  = dispatch router (as_user "bob" r) Sample.world Sample.db
  ∧ (put_id_status "alice" r' Sample.world Sample.db).1
    = status_json 200 (JsonTask ticked)
  ∧ List.find (has_id "t4")
      (tasks (put_id_status "alice" r' Sample.world Sample.db).2)
    = Some ticked
  ∧ put_id_status "alice" (set_params r {[ "id" := "nope" ]})
      Sample.world Sample.db
    = (status_json 404 (JsonObj "message" "Task not found"), Sample.db).
Proof.
  intros r r' ticked.
  destruct (status_update_ignores_caller "alice" "bob" r
              Sample.world Sample.db) as (_ & Hroute & _).
  destruct (status_update_ignores_caller "alice" "bob" r'
              Sample.world Sample.db) as (_ & _ & Hstatus).
  destruct (Hstatus eq_refl) as (Hset & _ & _ & _).
  destruct (Hset (Sample.task "t4" "bob" 9 5) (VBool true)
              eq_refl eq_refl ltac:(discriminate)) as (Hresp & Hfind & _).
  destruct (status_update_ignores_caller "alice" "bob"
              (set_params r {[ "id" := "nope" ]}) Sample.world Sample.db)
    as (_ & _ & Hmissing).
  destruct (Hmissing eq_refl) as (_ & _ & _ & H404).
  split; [exact (Hroute eq_refl (ex_intro _ "t4" eq_refl))|].
  split; [exact Hresp|]. split; [exact Hfind|].
  apply H404; [reflexivity | by eexists].
Defined.

(** C2, as stated, fails: the task exists and a [completed] value is
    supplied, but the value is not a boolean; the answer is 500, not
    200, and the store is as it was. *)
Lemma status_update_rejects_non_boolean :
  let r := Sample.req [("id", "t4")] [] [("completed", VStr "banana")] in
  List.find (has_id "t4") (tasks Sample.db)
  = Some (Sample.task "t4" "bob" 9 5)
  ∧ put_id_status "bob" r Sample.world Sample.db
    = (status_json 500 (JsonObj "message" "Internal server error"),
       Sample.db).
Proof. by repeat split. Qed.

(** ** Creation through [POST /] with a team *)

(** C3, as amended.  With [workspace == "team"], a team field that
    holds an id (a string that is not empty) and a body whose values
    pass the schema (a title that is a text and not empty, a due date
    that is absent or a date), [POST /] stores the new task at the end
    of the collection and returns it, whatever the team collection
    holds: the team named by the body need not exist and the acting
    user need not be one of its members.  The store is assumed to
    answer. *)
Theorem post_root_team_skips_directory
    (uid : string) (req : request) (e : env) (st : store)
    (teamId : string) (due : value) :
  db_up e = true →
  field (body req) "workspace" = VStr "team" →
  field (body req) "team" = VStr teamId → teamId ≠ "" →
  required_text (cast_string (field (body req) "title")) = true →
  cast_date e (field (body req) "dueDate") = Some due →
  let task :=
    {| _id := fresh_id e;
       title := cast_string (field (body req) "title");
       description := cast_string (field (body req) "description");
       dueDate := due;
       priority := field (body req) "priority";
       completed := VBool false;
       workspace := VStr "team"; user := uid;
       team := VStr teamId;
       createdAt := now e |} in
  post_root uid req e st
  = (json (JsonTask task), set_tasks st (tasks st ++ [task]))
  ∧ ∀ directory : list Team,
      post_root uid req e
        {| tasks := tasks st; teams := directory; users := users st |}
      = (json (JsonTask task),
         {| tasks := tasks st ++ [task]; teams := directory;
            users := users st |}).
Proof.
  intros Hup Hws Hteam Hne Htitle Hdue task.
  assert (Hgen : ∀ st', post_root uid req e st'
                 = (json (JsonTask task), set_tasks st' (tasks st' ++ [task]))).
  { intros st'. unfold post_root, try_catch, bind, new_Task.
    rewrite Hws, Hteam. simpl.
    rewrite (proj2 (String.eqb_neq _ _) Hne). simpl.
    erewrite Task_insert_valid; [reflexivity | done |].
    by apply cast_new_valid. }
  split; [apply Hgen|]. intros directory. by rewrite Hgen.
Qed.

Lemma post_root_team_skips_directory_witness :
  let r := Sample.req [] []
             [("title", VStr "plan"); ("workspace", VStr "team");
              ("team", VStr "no-such-team")] in
  let task :=
    {| _id := "t9"; title := VStr "plan"; description := VUndefined;
       dueDate := VUndefined; priority := VUndefined;
       completed := VBool false; workspace := VStr "team";
       user := "bob"; team := VStr "no-such-team"; createdAt := 1000 |} in
  List.find (λ g, String.eqb (team_id g) "no-such-team") (teams Sample.db)
  = None
  ∧ post_root "bob" r Sample.world Sample.db
    = (json (JsonTask task), set_tasks Sample.db (tasks Sample.db ++ [task])).
Proof.
  intros r task. split; [reflexivity|].
  exact (proj1 (post_root_team_skips_directory "bob" r Sample.world Sample.db
                  "no-such-team" VUndefined
                  eq_refl eq_refl eq_refl ltac:(discriminate)
                  eq_refl eq_refl)).
Defined.

(** C3, as stated, fails twice over.  A body with [workspace == "team"]
    and the id of a team in its team field, but no title, is answered
    500 and nothing is stored; and a body whose team field is present
    and holds [false] is answered 400. *)
Lemma post_root_team_not_always_created :
  let untitled := Sample.req [] []
                    [("workspace", VStr "team"); ("team", VStr "g1")] in
  let falsy := Sample.req [] []
                 [("title", VStr "plan"); ("workspace", VStr "team");
                  ("team", VBool false)] in
  post_root "alice" untitled Sample.world Sample.db
  = (status_send 500 "Server Error", Sample.db)
  ∧ body falsy !! "team" = Some (VBool false)
  ∧ post_root "alice" falsy Sample.world Sample.db
    = (status_json 400
         (JsonObj "msg" "Team ID is required for team workspace"),
       Sample.db).
Proof. by repeat split. Qed.

(** ** The team-scoped routes *)

(** C4.  [POST /:teamId] and [GET /:teamId] answer 404 "Team not found"
    when no team has the id, and 401 when the acting user is not among
    the team's members; in both cases the store is unchanged (no task is
    created) and the response carries a message only (no task data).
    The store is assumed to answer. *)
Theorem team_routes_require_membership
    (uid : string) (req : request) (e : env) (st : store) :
  db_up e = true →
  let teamId := params req !!! "teamId" in
  let lookup := List.find (λ g, String.eqb (team_id g) teamId) (teams st) in
  (lookup = None →
     post_teamId uid req e st
     = (status_json 404 (JsonObj "msg" "Team not found"), st)
     ∧ get_teamId uid req e st
       = (status_json 404 (JsonObj "msg" "Team not found"), st))
  ∧ (∀ g, lookup = Some g → uid ∉ members g →
     post_teamId uid req e st
     = (status_json 401
          (JsonObj "msg" "Not authorized to create tasks within this team"),
        st)
     ∧ get_teamId uid req e st
       = (status_json 401
            (JsonObj "msg" "Not authorized to view tasks within this team"),
          st)).
Proof.
  intros Hup teamId lookup. split.
  - intros Hnone.
    unfold post_teamId, get_teamId, try_catch, bind, Team_findById.
    rewrite round_trip_up by done. simpl. fold teamId lookup.
    by rewrite Hnone.
  - intros g Hsome Hnot.
    assert (Hinc : includes (members g) uid = false).
    { destruct (includes (members g) uid) eqn:E; [|done].
      by apply includes_elem_of in E. }
    unfold post_teamId, get_teamId, try_catch, bind, Team_findById.
    rewrite round_trip_up by done. simpl. fold teamId lookup.
    by rewrite Hsome, Hinc.
Qed.

Lemma team_routes_require_membership_witness :
  let r := Sample.req [("teamId", "g1")] [] [("title", VStr "plan")] in
  let r' := Sample.req [("teamId", "g7")] [] [("title", VStr "plan")] in
  post_teamId "bob" r Sample.world Sample.db
  = (status_json 401
       (JsonObj "msg" "Not authorized to create tasks within this team"),
     Sample.db)
  ∧ get_teamId "bob" r Sample.world Sample.db
    = (status_json 401
         (JsonObj "msg" "Not authorized to view tasks within this team"),
       Sample.db)
  ∧ post_teamId "alice" r' Sample.world Sample.db
    = (status_json 404 (JsonObj "msg" "Team not found"), Sample.db)
  ∧ get_teamId "alice" r' Sample.world Sample.db
    = (status_json 404 (JsonObj "msg" "Team not found"), Sample.db).
Proof.
  intros r r'.
  destruct (team_routes_require_membership "bob" r Sample.world Sample.db
              eq_refl) as [_ H401].
  destruct (team_routes_require_membership "alice" r' Sample.world Sample.db
              eq_refl) as [H404 _].
  assert (Hnot : "bob" ∉ ["alice"]) by compute_done.
  destruct (H401 {| team_id := "g1"; members := ["alice"] |} eq_refl Hnot)
    as [Hpost Hget].
  destruct (H404 eq_refl) as [Hpost' Hget'].
  split; [exact Hpost|]. split; [exact Hget|].
  split; [exact Hpost' | exact Hget'].
Defined.

(** ** Validation in [POST /] *)

(** What [POST /] answers, by cases on the body. *)
Lemma post_root_cases (uid : string) (req : request) (e : env) (st : store) :
  let workspace := field (body req) "workspace" in
  let team := field (body req) "team" in
  let task (team' : value) :=
    {| _id := fresh_id e;
       title := field (body req) "title";
       description := field (body req) "description";
       dueDate := field (body req) "dueDate";
       priority := field (body req) "priority";
       completed := VBool false;
       workspace := workspace; user := uid; team := team';
       createdAt := now e |} in
  let stored (t : Task) :=
    match cast_new e t with
    | Some t' =>
        if db_up e then (json (JsonTask t'), set_tasks st (tasks st ++ [t']))
        else (status_send 500 "Server Error", st)
    | None => (status_send 500 "Server Error", st)
    end in
  post_root uid req e st =
    if decide (workspace = VStr "personal") then stored (task VUndefined)
    else if decide (workspace = VStr "team") then
      if truthy team then stored (task team) else (team_required, st)
    else (invalid_workspace, st).
Proof.
  intros workspace team task stored.
  unfold post_root, try_catch, bind, new_Task, Task_insert, throw,
    round_trip, stored.
  fold workspace team.
  destruct (decide (workspace = VStr "personal")); simpl.
  { fold (task VUndefined). destruct (cast_new e (task VUndefined)); [|done].
    by destruct (db_up e). }
  destruct (decide (workspace = VStr "team")); [|done].
  destruct (truthy team); simpl; [|done].
  fold (task team). destruct (cast_new e (task team)); [|done].
  by destruct (db_up e).
Qed.

Lemma cast_id_Some (v v' : value) : cast_id v = Some v' → v' = v.
Proof. destruct v; simpl; congruence. Qed.

(** C5, as amended.  [POST /] answers 400 exactly on an invalid request:
    "Team ID is required for team workspace" exactly when
    [workspace == "team"] and the team field is falsy (absent, or
    present as [null], [false], [0] or the empty string), and "Invalid
    workspace" exactly when [workspace] is neither ["personal"] nor
    ["team"]; a 400 leaves the store as it was.  In every other case
    the new task is appended to the collection and returned when the
    values of the body pass the schema (a title that is a text and not
    empty, a due date that is absent or a date, for the team workspace
    a team that is an id) and the store answers; when they do not pass,
    the answer is 500 and nothing is stored. *)
Theorem post_root_validation
    (uid : string) (req : request) (e : env) (st : store) :
  let ws := field (body req) "workspace" in
  let tm := field (body req) "team" in
  let missing_team := ws = VStr "team" ∧ truthy tm = false in
  let bad_workspace := ws ≠ VStr "personal" ∧ ws ≠ VStr "team" in
  let r := (post_root uid req e st).1 in
  let title_ok := required_text (cast_string (field (body req) "title")) in
  let due := cast_date e (field (body req) "dueDate") in
  let ref := if decide (ws = VStr "personal") then VUndefined else tm in
  (r = team_required ↔ missing_team)
  ∧ (r = invalid_workspace ↔ bad_workspace)
  ∧ (status r = 400 ↔ missing_team ∨ bad_workspace)
  ∧ (status r = 400 → (post_root uid req e st).2 = st)
  ∧ (db_up e = true → ¬ missing_team → ¬ bad_workspace →
     ∀ d, title_ok = true → due = Some d → cast_id ref = Some ref →
       let task :=
         {| _id := fresh_id e;
            title := cast_string (field (body req) "title");
            description := cast_string (field (body req) "description");
            dueDate := d;
            priority := field (body req) "priority";
            completed := VBool false;
            workspace := ws; user := uid; team := ref;
            createdAt := now e |} in
       post_root uid req e st
       = (json (JsonTask task), set_tasks st (tasks st ++ [task])))
  ∧ (¬ missing_team → ¬ bad_workspace →
     title_ok = false ∨ due = None ∨ cast_id ref = None →
     post_root uid req e st = (status_send 500 "Server Error", st)).
Proof.
  intros ws tm missing_team bad_workspace r. cbv zeta.
  pose proof (post_root_cases uid req e st) as H. simpl in H.
  fold ws tm in H. unfold r, missing_team, bad_workspace.
  rewrite H. clear H r.
  destruct (decide (ws = VStr "personal")) as [Hp|Hp];
    [|destruct (decide (ws = VStr "team")) as [Ht|Ht];
      [destruct (truthy tm) eqn:Etr|]].
  all: repeat match goal with
              | |- context [cast_new ?e0 ?t] =>
                  lazymatch goal with
                  | H : cast_new e0 t = _ |- _ => fail
                  | _ => idtac
                  end;
                  let E := fresh "Ecast" in
                  destruct (cast_new e0 t) eqn:E
              end.
  all: destruct (db_up e); simpl.
  all: unfold team_required, invalid_workspace, json, status_json, status_send.
  all: repeat match goal with
              | |- _ ∧ _ => split
              | |- _ ↔ _ => split
              end.
  all: intros; try (exfalso; intuition congruence); try (intuition congruence).
  all: try match goal with
           | He : cast_new ?e0 ?t = _, Ht : required_text _ = true,
             Hd : cast_date _ _ = Some ?d, Hr : _ = Some ?v |- _ =>
               pose proof (cast_new_valid e0 t d v Ht Hd Hr) as Hv;
               rewrite He in Hv; by simplify_eq
           | He : cast_new ?e0 ?t = Some _, Hb : _ ∨ _ |- _ =>
               rewrite (cast_new_invalid e0 t Hb) in He; discriminate
           end.
Qed.

Lemma post_root_validation_witness :
  let r := Sample.req [] []
             [("title", VStr "plan"); ("workspace", VStr "personal");
              ("dueDate", VNum 500)] in
  let untitled := Sample.req [] [] [("workspace", VStr "personal")] in
  let undated := Sample.req [] []
                   [("title", VStr "plan"); ("workspace", VStr "personal");
                    ("dueDate", VStr "soon")] in
  let unreferenced := Sample.req [] []
                        [("title", VStr "plan"); ("workspace", VStr "team");
                         ("team", VBool true)] in
  let task :=
    {| _id := "t9"; title := VStr "plan"; description := VUndefined;
       dueDate := VNum 500; priority := VUndefined;
       completed := VBool false; workspace := VStr "personal";
       user := "alice"; team := VUndefined; createdAt := 1000 |} in
  post_root "alice" r Sample.world Sample.db
  = (json (JsonTask task), set_tasks Sample.db (tasks Sample.db ++ [task]))
  ∧ post_root "alice" untitled Sample.world Sample.db
    = (status_send 500 "Server Error", Sample.db)
  ∧ post_root "alice" undated Sample.world Sample.db
    = (status_send 500 "Server Error", Sample.db)
  ∧ post_root "alice" unreferenced Sample.world Sample.db
    = (status_send 500 "Server Error", Sample.db).
Proof.
  intros r untitled undated unreferenced task.
  destruct (post_root_validation "alice" r Sample.world Sample.db)
    as (_ & _ & _ & _ & Hok & _).
  destruct (post_root_validation "alice" untitled Sample.world Sample.db)
    as (_ & _ & _ & _ & _ & Hbad).
  destruct (post_root_validation "alice" undated Sample.world Sample.db)
    as (_ & _ & _ & _ & _ & Hdate).
  destruct (post_root_validation "alice" unreferenced Sample.world Sample.db)
    as (_ & _ & _ & _ & _ & Href).
  split; [|split; [|split]].
  - apply (Hok eq_refl); [| | reflexivity | reflexivity | reflexivity].
    + intros [Hws _]. discriminate Hws.
    + intros [Hws _]. by apply Hws.
  - apply Hbad; [| | by left].
    + intros [Hws _]. discriminate Hws.
    + intros [Hws _]. by apply Hws.
  - apply Hdate; [| | right; by left].
    + intros [Hws _]. discriminate Hws.
    + intros [Hws _]. by apply Hws.
  - apply Href; [| | right; by right].
    + intros [_ Hfalsy]. discriminate Hfalsy.
    + intros [_ Hws]. by apply Hws.
Defined.

(** C5, as stated, fails: a body whose team field is present and holds
    the empty string is answered 400 "Team ID is required ...", so that
    answer is not given exactly when the field is absent. *)
Lemma post_root_empty_team_rejected :
  let r := Sample.req [] []
             [("title", VStr "plan"); ("workspace", VStr "team");
              ("team", VStr "")] in
  body r !! "team" = Some (VStr "")
  ∧ post_root "alice" r Sample.world Sample.db = (team_required, Sample.db)
  ∧ ¬ ((post_root "alice" r Sample.world Sample.db).1 = team_required
       ↔ field (body r) "workspace" = VStr "team" ∧ body r !! "team" = None).
Proof.
  intros r. split; [reflexivity|]. split; [reflexivity|].
  intros [Hto _]. destruct (Hto eq_refl) as [_ Habsent]. discriminate Habsent.
Qed.

(** ** The field merge of [PUT /:id] *)

(** A key of the body that is present reaches the document. *)
Lemma field_present (b : gmap string value) (k : string) (v : value) :
  b !! k = Some v → field b k = v.
Proof. intros H. unfold field. by rewrite H. Qed.

(** A key the body does not have is read as [undefined]. *)
Lemma field_absent (b : gmap string value) (k : string) :
  b !! k = None → field b k = VUndefined.
Proof. intros H. unfold field. by rewrite H. Qed.

(** [Object.assign(task, taskData)] writes all five keys and nothing
    else. *)
Lemma Object_assign_fields (t : Task) (b : gmap string value) :
  let t' := Object_assign t (taskData_of b) in
  title t' = field b "title"
  ∧ description t' = field b "description"
  ∧ dueDate t' = field b "dueDate"
  ∧ priority t' = field b "priority"
  ∧ completed t' = field b "completed"
  ∧ _id t' = _id t ∧ workspace t' = workspace t ∧ user t' = user t
  ∧ team t' = team t ∧ createdAt t' = createdAt t.
Proof. by repeat split. Qed.

(** What the owner's [PUT /:id] answers and stores, the store
    answering. *)
Lemma put_id_by_owner (req : request) (e : env) (st : store) (task : Task) :
  db_up e = true →
  List.find (has_id (params req !!! "id")) (tasks st) = Some task →
  put_id (user task) req e st
  = match cast_assigned e (Object_assign task (taskData_of (body req))) with
    | Some saved =>
        (json (JsonTask saved),
         set_tasks st (replace_doc (params req !!! "id") saved (tasks st)))
    | None => (status_send 500 "Server Error", st)
    end.
Proof.
  intros Hup Hfind.
  destruct (find_has_id _ _ _ Hfind) as [Hid _].
  unfold put_id, try_catch, bind, Task_findById.
  rewrite round_trip_up by done. simpl. rewrite Hfind, String.eqb_refl. simpl.
  destruct (cast_assigned e (Object_assign task (taskData_of (body req))))
    as [saved|] eqn:Hcast.
  - erewrite Task_save_valid by done. simpl. by rewrite Hid.
  - by erewrite Task_save_invalid.
Qed.

(** A key the body omits is overwritten with [undefined] in the task
    the owner's update stores and returns, whatever it held. *)
Lemma put_id_omitted_description_lost
    (req : request) (e : env) (st : store) (task saved : Task) :
  db_up e = true →
  List.find (has_id (params req !!! "id")) (tasks st) = Some task →
  cast_assigned e (Object_assign task (taskData_of (body req))) = Some saved →
  body req !! "description" = None →
  ∃ st',
    put_id (user task) req e st = (json (JsonTask saved), st')
    ∧ List.find (has_id (params req !!! "id")) (tasks st') = Some saved
    ∧ description saved = VUndefined.
Proof.
  intros Hup Hfind Hcast Habsent.
  destruct (find_has_id _ _ _ Hfind) as [Hid _].
  eexists. split; [by rewrite put_id_by_owner, Hcast|]. split.
  - simpl. eapply find_replace_doc; [done|].
    by rewrite (cast_assigned_id _ _ _ Hcast).
  - apply cast_assigned_Some in Hcast as (_ & _ & _ & ->). simpl.
    by rewrite field_absent.
Qed.

(** C6, the code at a failing input.  The owner of a task with
    description "draft" sends a body holding a title only.  The update
    succeeds, and the stored task has lost its description, priority and
    completion flag: the keys the body omitted were assigned
    [undefined], not left as they were. *)
Lemma put_id_unsets_omitted_fields :
  let r := Sample.req [("id", "t1")] [] [("title", VStr "final report")] in
  let before := Sample.task "t1" "alice" 1 10 in
  let after :=
    {| _id := "t1"; title := VStr "final report";
       description := VUndefined; dueDate := VUndefined;
       priority := VUndefined; completed := VUndefined;
       workspace := VStr "personal"; user := "alice";
       team := VUndefined; createdAt := 10 |} in
  List.find (has_id "t1") (tasks Sample.db) = Some before
  ∧ description before = VStr "draft"
  ∧ priority before = VNum 1
  ∧ completed before = VBool false
  ∧ body r !! "description" = None
  ∧ body r !! "priority" = None
  ∧ body r !! "completed" = None
  ∧ (put_id "alice" r Sample.world Sample.db).1 = json (JsonTask after)
  ∧ List.find (has_id "t1")
      (tasks (put_id "alice" r Sample.world Sample.db).2) = Some after.
Proof. by repeat split. Qed.

(** ** Listing personal tasks *)

Section value_order.
Lemma ascii_compare_lt_trans (a b c : ascii) :
  Ascii.compare a b = Lt → Ascii.compare b c = Lt → Ascii.compare a c = Lt.
Proof.
  unfold Ascii.compare. rewrite !N.compare_lt_iff. lia.
Qed.

Lemma string_compare_lt_trans (s1 s2 s3 : string) :
  String.compare s1 s2 = Lt → String.compare s2 s3 = Lt →
  String.compare s1 s3 = Lt.
Proof.
  revert s2 s3. induction s1 as [|a s1 IH]; intros [|b s2] [|c s3];
    simpl; try done.
  destruct (Ascii.compare a b) eqn:Eab; try done;
    destruct (Ascii.compare b c) eqn:Ebc; try done.
  - apply Ascii.compare_eq_iff in Eab. subst a. rewrite Ebc. apply IH.
  - apply Ascii.compare_eq_iff in Eab. subst a. by rewrite Ebc.
  - apply Ascii.compare_eq_iff in Ebc. subst c. by rewrite Eab.
  - by rewrite (ascii_compare_lt_trans a b c).
Qed.

Lemma string_leb_trans (s1 s2 s3 : string) :
  String.leb s1 s2 = true → String.leb s2 s3 = true →
  String.leb s1 s3 = true.
Proof.
  unfold String.leb.
  destruct (String.compare s1 s2) eqn:E12; try done;
    destruct (String.compare s2 s3) eqn:E23; try done; intros _ _.
  - apply String.compare_eq_iff in E12. subst s1. by rewrite E23.
  - apply String.compare_eq_iff in E12. subst s1. by rewrite E23.
  - apply String.compare_eq_iff in E23. subst s3. by rewrite E12.
  - by rewrite (string_compare_lt_trans s1 s2 s3).
Qed.

Lemma value_leb_total (v w : value) :
  value_leb v w = true ∨ value_leb w v = true.
Proof.
  destruct v as [| |[]| |], w as [| |[]| |]; simpl; auto.
  - destruct (Z.leb_spec n n0), (Z.leb_spec n0 n); auto; lia.
  - apply String.leb_total.
Qed.

Lemma value_leb_trans (u v w : value) :
  value_leb u v = true → value_leb v w = true → value_leb u w = true.
Proof.
  destruct u as [| |[]| |], v as [| |[]| |], w as [| |[]| |];
    simpl; try done.
  - rewrite !Z.leb_le. lia.
  - apply string_leb_trans.
Qed.

#[global] Instance priority_desc_total : Total priority_desc.
Proof. intros t1 t2. unfold priority_desc. apply value_leb_total. Qed.

#[global] Instance priority_desc_trans : Transitive priority_desc.
Proof.
  intros t1 t2 t3. unfold priority_desc. intros H12 H23.
  by apply (value_leb_trans _ (priority t2)).
Qed.

#[global] Instance createdAt_desc_total : Total createdAt_desc.
Proof. intros t1 t2. unfold createdAt_desc. lia. Qed.

#[global] Instance createdAt_desc_trans : Transitive createdAt_desc.
Proof. intros t1 t2 t3. unfold createdAt_desc. lia. Qed.
End value_order.

Lemma get_root_up (uid : string) (req : request) (e : env) (st : store) :
  db_up e = true →
  get_root uid req e st
  = (json (JsonTasks (listing (query req !! "sortBy")
                        (List.filter (owned_by uid) (tasks st)))), st).
Proof.
  intros Hup. unfold get_root, try_catch, bind, listing.
  destruct (decide (query req !! "sortBy" = Some "priority")).
  { unfold Task_find_sort. by rewrite round_trip_up. }
  destruct (decide (query req !! "sortBy" = Some "dateAdded")).
  { unfold Task_find_sort. by rewrite round_trip_up. }
  unfold Task_find. by rewrite round_trip_up.
Qed.

Lemma listing_Permutation (sortBy : option string) (l : list Task) :
  listing sortBy l ≡ₚ l.
Proof.
  unfold listing. repeat case_decide; auto using merge_sort_Permutation.
Qed.

Lemma elem_of_owned (uid : string) (l : list Task) (t : Task) :
  t ∈ List.filter (owned_by uid) l ↔ t ∈ l ∧ user t = uid.
Proof.
  rewrite !list_elem_of_In, List.filter_In. unfold owned_by.
  by rewrite String.eqb_eq.
Qed.

Lemma elem_of_listing (sortBy : option string) (uid : string)
    (l : list Task) (t : Task) :
  t ∈ listing sortBy (List.filter (owned_by uid) l) ↔ t ∈ l ∧ user t = uid.
Proof. by rewrite listing_Permutation, elem_of_owned. Qed.

(** C7.  [GET /] returns exactly the tasks of the acting user: sorted
    by priority, highest first, with [sortBy=priority]; sorted by
    [createdAt], newest first, with [sortBy=dateAdded]; in storage
    (insertion) order when [sortBy] is absent or anything else.  The
    store is assumed to answer. *)
Theorem get_root_order (uid : string) (req : request) (e : env) (st : store) :
  db_up e = true →
  let sortBy := query req !! "sortBy" in
  let mine := List.filter (owned_by uid) (tasks st) in
  ∃ l,
    get_root uid req e st = (json (JsonTasks l), st)
    ∧ (∀ t, t ∈ l ↔ t ∈ tasks st ∧ user t = uid)
    ∧ l ≡ₚ mine
    ∧ (sortBy = Some "priority" → StronglySorted priority_desc l)
    ∧ (sortBy = Some "dateAdded" → StronglySorted createdAt_desc l)
    ∧ (sortBy ≠ Some "priority" → sortBy ≠ Some "dateAdded" → l = mine).
Proof.
  intros Hup sortBy mine. exists (listing sortBy mine).
  split; [by apply get_root_up|].
  split; [intros t; apply elem_of_listing|].
  split; [apply listing_Permutation|].
  unfold listing. repeat split.
  - intros ->. rewrite decide_True by done.
    apply StronglySorted_merge_sort; apply _.
  - intros ->. rewrite decide_False by done. rewrite decide_True by done.
    apply StronglySorted_merge_sort; apply _.
  - intros H1 H2. by rewrite !decide_False.
Qed.

Lemma get_root_order_witness :
  let by_priority := Sample.req [] [("sortBy", "priority")] [] in
  let by_date := Sample.req [] [("sortBy", "dateAdded")] [] in
  let plain := Sample.req [] [] [] in
  (∃ l, get_root "alice" by_priority Sample.world Sample.db
        = (json (JsonTasks l), Sample.db)
        ∧ priority <$> l = [VNum 5; VNum 3; VNum 1]
        ∧ StronglySorted priority_desc l)
  ∧ (∃ l, get_root "alice" by_date Sample.world Sample.db
          = (json (JsonTasks l), Sample.db)
          ∧ createdAt <$> l = [30; 20; 10]
          ∧ StronglySorted createdAt_desc l)
  ∧ (∃ l, get_root "alice" plain Sample.world Sample.db
          = (json (JsonTasks l), Sample.db)
          ∧ _id <$> l = ["t1"; "t2"; "t3"]).
Proof.
  intros by_priority by_date plain. split; [|split].
  - destruct (get_root_order "alice" by_priority Sample.world Sample.db
                eq_refl) as (l & Heq & _ & _ & Hsorted & _).
    exists l. split; [exact Heq|]. split; [|exact (Hsorted eq_refl)].
    vm_compute in Heq. by injection Heq as <-.
  - destruct (get_root_order "alice" by_date Sample.world Sample.db
                eq_refl) as (l & Heq & _ & _ & _ & Hsorted & _).
    exists l. split; [exact Heq|]. split; [|exact (Hsorted eq_refl)].
    vm_compute in Heq. by injection Heq as <-.
  - destruct (get_root_order "alice" plain Sample.world Sample.db
                eq_refl) as (l & Heq & _ & _ & _ & _ & Hplain).
    exists l. split; [exact Heq|].
    rewrite Hplain; [reflexivity | discriminate | discriminate].
Defined.

(** ** Creation followed by listing *)

(** What is known of a [POST /] that answered with a task. *)
Lemma post_root_created (uid : string) (req : request) (e : env)
    (st st' : store) (task : Task) :
  post_root uid req e st = (json (JsonTask task), st') →
  st' = set_tasks st (tasks st ++ [task])
  ∧ _id task = fresh_id e ∧ user task = uid
  ∧ workspace task = field (body req) "workspace"
  ∧ (field (body req) "workspace" = VStr "personal" → team task = VUndefined)
  ∧ (field (body req) "workspace" ≠ VStr "personal" →
     team task = field (body req) "team").
Proof.
  rewrite post_root_cases. cbv zeta.
  repeat case_match; intros Heq; simplify_eq; try done.
  all: match goal with
       | H : cast_new _ _ = Some _ |- _ =>
           let Hid := fresh in
           pose proof (cast_id_Some _ _
                         (proj1 (proj2 (proj2 (cast_new_Some _ _ _ H)))))
             as Hid;
           apply cast_new_Some in H as (_ & _ & _ & ->)
       end.
  all: simpl in *; by repeat split.
Qed.

(** C8.  A task created through [POST /] with [workspace == "personal"]
    by a user (the request was answered with the task) is in the list a
    following [GET /] returns to that user, whatever the sort, and is
    not in the list it returns to any other user.  The store is assumed
    to answer the two listings. *)
Theorem personal_task_listed_for_owner_only
    (uid other : string) (req q q' : request) (e e1 e2 : env)
    (st st' : store) (task : Task) :
  post_root uid req e st = (json (JsonTask task), st') →
  field (body req) "workspace" = VStr "personal" →
  db_up e1 = true → db_up e2 = true →
  other ≠ uid →
  (∃ l, get_root uid q e1 st' = (json (JsonTasks l), st') ∧ task ∈ l)
  ∧ (∃ l, get_root other q' e2 st' = (json (JsonTasks l), st')
          ∧ task ∉ l).
Proof.
  intros Hpost Hws Hup1 Hup2 Hother.
  apply post_root_created in Hpost as (-> & _ & Huser & _).
  split.
  - eexists. split; [by apply get_root_up|].
    apply elem_of_listing. split; [|done].
    simpl. apply elem_of_app. right. apply list_elem_of_here.
  - eexists. split; [by apply get_root_up|].
    rewrite elem_of_listing. simpl. intros [_ Huser']. congruence.
Qed.

Lemma personal_task_listed_for_owner_only_witness :
  let create := Sample.req [] []
                  [("title", VStr "plan"); ("workspace", VStr "personal")] in
  let list := Sample.req [] [("sortBy", "priority")] [] in
  let task :=
    {| _id := "t9"; title := VStr "plan"; description := VUndefined;
       dueDate := VUndefined; priority := VUndefined;
       completed := VBool false; workspace := VStr "personal";
       user := "bob"; team := VUndefined; createdAt := 1000 |} in
  let st' := set_tasks Sample.db (tasks Sample.db ++ [task]) in
  post_root "bob" create Sample.world Sample.db = (json (JsonTask task), st')
  ∧ (∃ l, get_root "bob" list Sample.world st' = (json (JsonTasks l), st')
          ∧ task ∈ l)
  ∧ (∃ l, get_root "alice" list Sample.world st' = (json (JsonTasks l), st')
          ∧ task ∉ l).
Proof.
  intros create list task st'. split; [reflexivity|].
  apply (personal_task_listed_for_owner_only "bob" "alice" create list list
           Sample.world Sample.world Sample.world Sample.db st' task);
    [reflexivity | reflexivity | reflexivity | reflexivity | discriminate].
Defined.

(** ** Identity of a task under the mutating routes *)

Section identity_preserved.
Implicit Types (l : list Task) (t : Task) (id : string).

Lemma replace_doc_identity id t' l :
  (∀ t, List.find (has_id id) l = Some t → identity t' = identity t) →
  identity <$> replace_doc id t' l = identity <$> l.
Proof.
  induction l as [|x l IH]; csimpl; [done|]. intros H.
  destruct (has_id id x); csimpl.
  - by rewrite (H x).
  - by rewrite IH.
Qed.

Lemma find_replace_doc_identity id t t' l id0 t0 :
  List.find (has_id id) l = Some t → identity t' = identity t →
  List.find (has_id id0) l = Some t0 →
  ∃ t0', List.find (has_id id0) (replace_doc id t' l) = Some t0'
         ∧ identity t0' = identity t0.
Proof.
  intros Hfind Hident Hfind0.
  destruct (find_has_id _ _ _ Hfind) as [Hid _].
  assert (Hid' : _id t' = id) by (injection Hident; congruence).
  destruct (decide (id0 = id)) as [->|Hne].
  - exists t'. split; [by eapply find_replace_doc|]. congruence.
  - exists t0. by rewrite find_replace_doc_ne.
Qed.

(** The store after [PUT /:id]: untouched, or the found document
    replaced by one that agrees with it on the protected fields. *)
Lemma put_id_store uid req e st :
  let id := params req !!! "id" in
  (put_id uid req e st).2 = st
  ∨ ∃ t t', List.find (has_id id) (tasks st) = Some t
            ∧ protected t' = protected t
            ∧ (put_id uid req e st).2
              = set_tasks st (replace_doc id t' (tasks st)).
Proof.
  intros id.
  destruct (db_up e) eqn:Hup.
  2:{ left. unfold put_id, try_catch, bind, Task_findById.
      by rewrite round_trip_down. }
  destruct (List.find (has_id id) (tasks st)) as [t|] eqn:Hfind.
  2:{ left. unfold put_id, try_catch, bind, Task_findById.
      rewrite round_trip_up by done. simpl. fold id. by rewrite Hfind. }
  destruct (String.eqb (user t) uid) eqn:Heq.
  2:{ left. unfold put_id, try_catch, bind, Task_findById.
      rewrite round_trip_up by done. simpl. fold id. by rewrite Hfind, Heq. }
  apply String.eqb_eq in Heq. subst uid.
  rewrite (put_id_by_owner req e st t Hup Hfind).
  destruct (cast_assigned e (Object_assign t (taskData_of (body req))))
    as [t'|] eqn:Hcast; [|by left].
  right. exists t, t'. split; [done|]. split; [|done].
  apply cast_assigned_Some in Hcast as (_ & _ & _ & ->). done.
Qed.

(** The store after [PUT /:id/status]. *)
Lemma put_id_status_store uid req e st :
  let id := params req !!! "id" in
  (put_id_status uid req e st).2 = st
  ∨ ∃ t flag, List.find (has_id id) (tasks st) = Some t
              ∧ (put_id_status uid req e st).2
                = set_tasks st
                    (replace_doc id (apply_completed flag t) (tasks st)).
Proof.
  intros id.
  unfold put_id_status, try_catch, bind, Task_findByIdAndUpdate, throw,
    round_trip.
  destruct (cast_boolean (field (body req) "completed")) as [flag|];
    [|by left].
  destruct (db_up e); simpl; [|by left]. fold id.
  destruct (List.find (has_id id) (tasks st)) as [t|] eqn:Hfind;
    simpl; [|by left].
  right. by exists t, flag.
Qed.

Lemma identity_protected t t' : protected t' = protected t → identity t' = identity t.
Proof. unfold protected, identity. congruence. Qed.

Lemma identity_Object_assign t d : identity (Object_assign t d) = identity t.
Proof. done. Qed.

Lemma identity_apply_completed v t : identity (apply_completed v t) = identity t.
Proof. by destruct v. Qed.
End identity_preserved.

(** C9.  Neither the field merge of [PUT /:id] nor the [completed]
    update of [PUT /:id/status] changes the [_id] or the [createdAt] of
    a task: for every request, the stored tasks carry, position by
    position, the ids and creation times they carried before, and every
    id that resolved to a task still resolves to a task with the same
    two fields. *)
Theorem id_and_createdAt_immutable
    (uid : string) (req : request) (e : env) (st : store) :
  let after_put := (put_id uid req e st).2 in
  let after_status := (put_id_status uid req e st).2 in
  identity <$> tasks after_put = identity <$> tasks st
  ∧ identity <$> tasks after_status = identity <$> tasks st
  ∧ ∀ id t, List.find (has_id id) (tasks st) = Some t →
      (∃ t', List.find (has_id id) (tasks after_put) = Some t'
             ∧ _id t' = _id t ∧ createdAt t' = createdAt t)
      ∧ (∃ t', List.find (has_id id) (tasks after_status) = Some t'
               ∧ _id t' = _id t ∧ createdAt t' = createdAt t).
Proof.
  intros after_put after_status.
  assert (Hstep : ∀ st' : store,
            tasks st' = tasks st
            ∨ (∃ i t t', List.find (has_id i) (tasks st) = Some t
                         ∧ identity t' = identity t
                         ∧ tasks st' = replace_doc i t' (tasks st)) →
            identity <$> tasks st' = identity <$> tasks st
            ∧ ∀ id t, List.find (has_id id) (tasks st) = Some t →
                ∃ t', List.find (has_id id) (tasks st') = Some t'
                      ∧ _id t' = _id t ∧ createdAt t' = createdAt t).
  { intros st' [-> | (i & t0 & t0' & Hf & Hi & ->)].
    - split; [done|]. intros id t Ht. by exists t.
    - split.
      + apply replace_doc_identity. intros t Ht. congruence.
      + intros id t Ht.
        destruct (find_replace_doc_identity i t0 t0' (tasks st) id t Hf Hi Ht)
          as (t' & Hf' & E).
        exists t'. split; [exact Hf'|]. by injection E. }
  assert (Hput : identity <$> tasks after_put = identity <$> tasks st
            ∧ ∀ id t, List.find (has_id id) (tasks st) = Some t →
                ∃ t', List.find (has_id id) (tasks after_put) = Some t'
                      ∧ _id t' = _id t ∧ createdAt t' = createdAt t).
  { apply Hstep. unfold after_put.
    destruct (put_id_store uid req e st) as [-> | (t & t' & Hf & Hp & ->)];
      [by left|].
    right. exists (params req !!! "id"), t, t'.
    split; [done|]. split; [by apply identity_protected | done]. }
  assert (Hstatus : identity <$> tasks after_status = identity <$> tasks st
            ∧ ∀ id t, List.find (has_id id) (tasks st) = Some t →
                ∃ t', List.find (has_id id) (tasks after_status) = Some t'
                      ∧ _id t' = _id t ∧ createdAt t' = createdAt t).
  { apply Hstep. unfold after_status.
    destruct (put_id_status_store uid req e st) as [-> | (t & flag & Hf & ->)];
      [by left|].
    right. exists (params req !!! "id"), t, (apply_completed flag t).
    split; [done|]. split; [apply identity_apply_completed | done]. }
  destruct Hput as [Hput1 Hput2], Hstatus as [Hst1 Hst2].
  split; [done|]. split; [done|]. intros id t Ht. split; auto.
Qed.

Lemma id_and_createdAt_immutable_witness :
  let r := Sample.req [("id", "t1")] []
             [("title", VStr "final report"); ("completed", VBool true)] in
  (∃ t', List.find (has_id "t1")
           (tasks (put_id "alice" r Sample.world Sample.db).2) = Some t'
         ∧ _id t' = "t1" ∧ createdAt t' = 10
         ∧ title t' = VStr "final report")
  ∧ (∃ t', List.find (has_id "t1")
             (tasks (put_id_status "bob" r Sample.world Sample.db).2) = Some t'
           ∧ _id t' = "t1" ∧ createdAt t' = 10
           ∧ completed t' = VBool true).
Proof.
  intros r.
  destruct (id_and_createdAt_immutable "alice" r Sample.world Sample.db)
    as (_ & _ & Ha).
  destruct (id_and_createdAt_immutable "bob" r Sample.world Sample.db)
    as (_ & _ & Hb).
  destruct (Ha "t1" (Sample.task "t1" "alice" 1 10) eq_refl)
    as [(t1 & Hf1 & Hi1 & Hc1) _].
  destruct (Hb "t1" (Sample.task "t1" "alice" 1 10) eq_refl)
    as [_ (t2 & Hf2 & Hi2 & Hc2)].
  split.
  - exists t1. split; [exact Hf1|]. split; [exact Hi1|]. split; [exact Hc1|].
    vm_compute in Hf1. by injection Hf1 as <-.
  - exists t2. split; [exact Hf2|]. split; [exact Hi2|]. split; [exact Hc2|].
    vm_compute in Hf2. by injection Hf2 as <-.
Defined.

(** ** The duplicate registration of [GET /] *)

Section dispatch_lemmas.
Implicit Types (r : route) (rs : list route) (req : request).

(** [dispatch] runs the registration [select] points at. *)
Lemma dispatch_select rs req e st :
  dispatch rs req e st =
    match select rs req with
    | Some i =>
        match rs !! i with
        | Some r =>
            match match_path (route_path r) (path req) with
            | Some ps => auth (route_handler r) (set_params req ps) e st
            | None => (Unrouted, st)
            end
        | None => (Unrouted, st)
        end
    | None => (Unrouted, st)
    end.
Proof.
  induction rs as [|r rs IH]; simpl; [done|].
  destruct (decide (route_verb r = verb req)).
  - destruct (match_path (route_path r) (path req)) eqn:E; simpl.
    + by rewrite ?E.
    + rewrite IH. by destruct (select rs req).
  - rewrite IH. by destruct (select rs req).
Qed.

Lemma dispatch_skip r rs req e st :
  ¬ takes r req → dispatch (r :: rs) req e st = dispatch rs req e st.
Proof.
  unfold takes. intros H. simpl.
  destruct (decide (route_verb r = verb req)); [|done].
  destruct (match_path (route_path r) (path req)) eqn:E; [|done].
  destruct H. split; [done | by eexists].
Qed.

Lemma dispatch_take r rs rs' req e st :
  takes r req → dispatch (r :: rs) req e st = dispatch (r :: rs') req e st.
Proof.
  unfold takes. intros [Hv [ps Hps]]. simpl.
  destruct (decide (route_verb r = verb req)); [|done]. by rewrite Hps.
Qed.

Lemma dispatch_drop_untaken rs r rs' req e st :
  ¬ takes r req →
  dispatch (rs ++ r :: rs') req e st = dispatch (rs ++ rs') req e st.
Proof.
  intros H. induction rs as [|x rs IH]; simpl.
  - by apply dispatch_skip.
  - by rewrite IH.
Qed.

(** A registration that repeats the method and the path of an earlier
    one never runs: removing it changes nothing. *)
Lemma dispatch_shadowed rs1 r rs2 r' rs3 req e st :
  route_verb r' = route_verb r → route_path r' = route_path r →
  dispatch (rs1 ++ r :: rs2 ++ r' :: rs3) req e st
  = dispatch (rs1 ++ r :: rs2 ++ rs3) req e st.
Proof.
  intros Hv Hp. induction rs1 as [|x rs1 IH]; simpl.
  - destruct (decide (route_verb r = verb req)) as [Hr|Hr].
    + destruct (match_path (route_path r) (path req)) eqn:E; [done|].
      apply dispatch_drop_untaken. unfold takes.
      rewrite Hp, E. intros [_ [ps Hps]]. discriminate Hps.
    + apply dispatch_drop_untaken. unfold takes. rewrite Hv. tauto.
  - by rewrite IH.
Qed.
(** X1.  Which handler serves which request: the route table the
    registrations amount to.  A path of one segment is a task id under
    [PUT] and [DELETE] and a team id under [POST] and [GET]; the status
    route takes two segments, the second being "status" in any case of
    letters; every other request is left unrouted. *)
Lemma routing_table req e st :
  dispatch router req e st =
    match verb req, path req with
    | GET, [] => auth get_root (set_params req ∅) e st
    | POST, [] => auth post_root (set_params req ∅) e st
    | PUT, [x] => auth put_id (set_params req {[ "id" := x ]}) e st
    | DELETE, [x] => auth delete_id (set_params req {[ "id" := x ]}) e st
    | POST, [x] => auth post_teamId (set_params req {[ "teamId" := x ]}) e st
    | GET, [x] => auth get_teamId (set_params req {[ "teamId" := x ]}) e st
    | PUT, [x; y] =>
        if String.eqb "status" (lower y) then
          auth put_id_status (set_params req {[ "id" := x ]}) e st
        else (Unrouted, st)
    | _, _ => (Unrouted, st)
    end.
Proof.
  unfold router, dispatch.
  destruct (verb req), (path req) as [|x [|y [|z p]]];
    cbn -[String.eqb lower auth]; try reflexivity.
  all: change (lower "status") with "status".
  all: by destruct (String.eqb "status" (lower y)).
Qed.
End dispatch_lemmas.

(** C10.  The router registers [GET '/'] twice with the same body.  The
    second registration (position 6) is never the one that takes a
    request, and for every request, environment and store the router
    answers and acts as the router without that registration. *)
Theorem duplicate_get_root_unreachable :
  router !! 6%nat = Some (mkRoute GET [] get_root_again)
  ∧ get_root_again = get_root
  ∧ router_without_duplicate = delete 6%nat router
  ∧ (∀ req, select router req ≠ Some 6%nat)
  ∧ (∀ req e st,
       dispatch router req e st = dispatch router_without_duplicate req e st).
Proof.
  split; [reflexivity|]. split; [reflexivity|]. split; [reflexivity|]. split.
  - intros req. unfold router, select.
    destruct (verb req), (path req) as [|x [|y [|z p]]];
      cbn -[String.eqb lower]; try discriminate.
    all: match goal with
         | |- context [String.eqb ?a ?b] => destruct (String.eqb a b)
         end; discriminate.
  - intros req e st.
    exact (dispatch_shadowed [] (mkRoute GET [] get_root)
             [mkRoute POST [] post_root;
              mkRoute PUT [Param "id"] put_id;
              mkRoute DELETE [Param "id"] delete_id;
              mkRoute POST [Param "teamId"] post_teamId;
              mkRoute GET [Param "teamId"] get_teamId]
             (mkRoute GET [] get_root_again)
             [mkRoute PUT [Param "id"; Lit "status"] put_id_status]
             req e st eq_refl eq_refl).
Qed.

(** ** Invariants of the store under the router *)

Section invariants.
Implicit Types (h : handler) (req : request) (e : env) (st : store).

Lemma ids_step_refl e st : ids_step e st st.
Proof. by left. Qed.

Lemma ids_step_insert e st (t : Task) :
  _id t = fresh_id e → ids_step e st (set_tasks st (tasks st ++ [t])).
Proof. intros Hid. right. simpl. by rewrite fmap_app, <- Hid. Qed.

Lemma ids_step_replace e st id (t' : Task) :
  _id t' = id → ids_step e st (set_tasks st (replace_doc id t' (tasks st))).
Proof. intros Hid. left. simpl. by rewrite replace_doc_ids. Qed.

Lemma ids_step_remove e st id :
  ids_step e st (set_tasks st (remove_doc id (tasks st))).
Proof. left. simpl. apply fmap_sublist, remove_doc_sublist. Qed.

Local Hint Resolve ids_step_refl ids_step_insert ids_step_replace
  ids_step_remove : core.

Local Ltac stored_ids :=
  split; [|done];
  match goal with
  | H : cast_new _ _ = Some _ |- _ =>
      apply ids_step_insert; by rewrite (cast_new_id _ _ _ H)
  | H : cast_assigned _ _ = Some _ |- _ =>
      apply ids_step_replace; done
  end.

Lemma get_root_well_behaved : well_behaved get_root.
Proof. intros uid req e st. run_handler; auto. Qed.

Lemma get_root_again_well_behaved : well_behaved get_root_again.
Proof. intros uid req e st. run_handler; auto. Qed.

Lemma post_root_well_behaved : well_behaved post_root.
Proof.
  intros uid req e st. run_handler; auto; stored_ids.
Qed.

Lemma put_id_well_behaved : well_behaved put_id.
Proof.
  intros uid req e st. run_handler; auto; stored_ids.
Qed.

Lemma delete_id_well_behaved : well_behaved delete_id.
Proof.
  intros uid req e st. run_handler; auto.
Qed.

Lemma post_teamId_well_behaved : well_behaved post_teamId.
Proof.
  intros uid req e st. run_handler; auto; stored_ids.
Qed.

Lemma get_teamId_well_behaved : well_behaved get_teamId.
Proof. intros uid req e st. run_handler; auto. Qed.

Lemma put_id_status_well_behaved : well_behaved put_id_status.
Proof.
  intros uid req e st. run_handler; auto.
  split; [|done]. apply ids_step_replace.
  match goal with
  | H : List.find _ _ = Some ?t |- _ =>
      destruct (find_has_id _ _ _ H) as [<- _]
  end.
  match goal with
  | |- _id (apply_completed ?v _) = _ => by destruct v
  end.
Qed.

Lemma dispatch_well_behaved rs req e st :
  Forall (λ r, well_behaved (route_handler r)) rs →
  let st' := (dispatch rs req e st).2 in
  ids_step e st st' ∧ teams st' = teams st ∧ users st' = users st.
Proof.
  induction 1 as [|r rs Hr _ IH]; simpl; [auto|].
  destruct (decide (route_verb r = verb req)); [|exact IH].
  destruct (match_path (route_path r) (path req)) as [ps|]; [|exact IH].
  unfold auth. cbn [credentials set_params].
  destruct (credentials req) as [uid|]; simpl; [|auto].
  specialize (Hr uid (set_params req ps) e st). cbv zeta in Hr.
  destruct (route_handler r uid (set_params req ps) e st) as [resp st1].
  exact Hr.
Qed.

Lemma router_well_behaved :
  Forall (λ r, well_behaved (route_handler r)) router.
Proof.
  unfold router.
  repeat (apply List.Forall_cons;
          [first [ apply get_root_well_behaved
                 | apply get_root_again_well_behaved
                 | apply post_root_well_behaved
                 | apply put_id_well_behaved
                 | apply delete_id_well_behaved
                 | apply post_teamId_well_behaved
                 | apply get_teamId_well_behaved
                 | apply put_id_status_well_behaved ] |]).
  apply List.Forall_nil.
Qed.

(** X18.  Whatever the request, the router keeps the ids of the task
    collection unique as long as the generated id is new, and never
    writes to the teams or the users. *)
Lemma router_preserves_unique_ids req e st :
  unique_ids st → fresh_id e ∉ _id <$> tasks st →
  let st' := (dispatch router req e st).2 in
  unique_ids st' ∧ teams st' = teams st ∧ users st' = users st.
Proof.
  intros Huniq Hfresh st'.
  destruct (dispatch_well_behaved router req e st router_well_behaved)
    as ([Hsub | Happ] & Hteams & Husers); fold st' in Hsub || fold st' in Happ.
  - split; [|done]. unfold unique_ids. by eapply sublist_NoDup.
  - split; [|done]. unfold unique_ids. rewrite Happ.
    apply NoDup_app. split; [done|]. split.
    + intros x Hx Hx'. apply list_elem_of_singleton in Hx'. by subst.
    + apply NoDup_singleton.
Qed.
End invariants.

(** ** What a request may do to the store *)

Section effects.
Implicit Types (h : handler) (req : request) (e : env) (st : store).

Lemma effect_unchanged uid e st r : effect uid e st r st.
Proof. unfold effect. auto. Qed.

Lemma store_eq st st' :
  tasks st' = tasks st → teams st' = teams st → users st' = users st →
  st' = st.
Proof. destruct st, st'. simpl. by intros -> -> ->. Qed.

Lemma protected_Object_assign (t : Task) (d : TaskData) :
  protected (Object_assign t d) = protected t.
Proof. done. Qed.

Lemma protected_apply_completed (v : value) (t : Task) :
  protected (apply_completed v t) = protected t.
Proof. by destruct v. Qed.

Local Hint Resolve effect_unchanged : core.

Local Ltac written :=
  split; [done|]; split; [done|]; right; split; [done|]; simpl.

Lemma get_root_effect : has_effect get_root.
Proof. intros uid req e st. run_handler; auto. Qed.

Lemma get_root_again_effect : has_effect get_root_again.
Proof. intros uid req e st. run_handler; auto. Qed.

Lemma get_teamId_effect : has_effect get_teamId.
Proof. intros uid req e st. run_handler; auto. Qed.

Local Ltac inserted :=
  written;
  match goal with
  | H : cast_new _ _ = Some _ |- _ =>
      destruct (cast_new_keeps _ _ _ H) as (? & ? & ? & ? & ?);
      by apply change_insert
  end.

Lemma post_root_effect : has_effect post_root.
Proof. intros uid req e st. run_handler; auto; inserted. Qed.

Lemma post_teamId_effect : has_effect post_teamId.
Proof. intros uid req e st. run_handler; auto; inserted. Qed.

Lemma put_id_effect : has_effect put_id.
Proof.
  intros uid req e st. run_handler; auto.
  written.
  match goal with
  | H : List.find _ _ = Some ?t, Hc : cast_assigned _ _ = Some ?t' |- _ =>
      destruct (find_has_id _ _ _ H) as [Hid _];
      destruct (cast_assigned_keeps _ _ _ Hc) as (E1 & E2 & E3 & E4 & E5);
      simpl in *; rewrite E1, Hid;
      apply (change_replace _ _ _ _ t); [done|];
      unfold protected; congruence
  end.
Qed.

Lemma delete_id_effect : has_effect delete_id.
Proof.
  intros uid req e st. run_handler; auto.
  written.
  match goal with
  | H : List.find _ _ = Some ?t, Hu : negb (String.eqb (user ?t) _) = false
    |- _ =>
      destruct (find_has_id _ _ _ H) as [-> _];
      apply (change_remove _ _ _ _ t); [done|];
      apply negb_false_iff, String.eqb_eq in Hu; exact Hu
  end.
Qed.

Lemma put_id_status_effect : has_effect put_id_status.
Proof.
  intros uid req e st. run_handler; auto.
  written.
  match goal with
  | H : List.find _ _ = Some ?t |- _ =>
      apply (change_replace _ _ _ _ t); [done|];
      apply protected_apply_completed
  end.
Qed.

Lemma router_has_effect : Forall (λ r, has_effect (route_handler r)) router.
Proof.
  unfold router.
  repeat (apply List.Forall_cons;
          [first [ apply get_root_effect
                 | apply get_root_again_effect
                 | apply post_root_effect
                 | apply put_id_effect
                 | apply delete_id_effect
                 | apply post_teamId_effect
                 | apply get_teamId_effect
                 | apply put_id_status_effect ] |]).
  apply List.Forall_nil.
Qed.

(** A request the router does not answer leaves the store alone; one it
    answers was handled for the authenticated user, with the effect of a
    handler. *)
Lemma dispatch_effect rs req e st :
  Forall (λ r, has_effect (route_handler r)) rs →
  match dispatch rs req e st with
  | (Replied r, st') =>
      ∃ uid, credentials req = Some uid ∧ effect uid e st r st'
  | (_, st') => st' = st
  end.
Proof.
  induction 1 as [|r rs Hr _ IH]; simpl; [done|].
  destruct (decide (route_verb r = verb req)); [|exact IH].
  destruct (match_path (route_path r) (path req)) as [ps|]; [|exact IH].
  unfold auth. cbn [credentials set_params].
  destruct (credentials req) as [uid|]; [|done].
  specialize (Hr uid (set_params req ps) e st).
  destruct (route_handler r uid (set_params req ps) e st) as [resp st1].
  by exists uid.
Qed.

Lemma router_effect req e st :
  match dispatch router req e st with
  | (Replied r, st') =>
      ∃ uid, credentials req = Some uid ∧ effect uid e st r st'
  | (_, st') => st' = st
  end.
Proof. apply dispatch_effect, router_has_effect. Qed.
End effects.

Section find_lemmas.
Implicit Types (l : list Task) (t : Task) (id : string).

Lemma find_app_Some id l l' t :
  List.find (has_id id) l = Some t → List.find (has_id id) (l ++ l') = Some t.
Proof.
  induction l as [|x l IH]; simpl; [done|].
  destruct (has_id id x); auto.
Qed.

Lemma find_replace_doc_is_Some id id' t' l t :
  _id t' = id → List.find (has_id id') l = Some t →
  is_Some (List.find (has_id id') (replace_doc id t' l)).
Proof.
  intros Hid Hfind. destruct (decide (id' = id)) as [->|Hne].
  - exists t'. by eapply find_replace_doc.
  - exists t. by rewrite find_replace_doc_ne.
Qed.

Lemma elem_of_replace_doc_ids id t' l t :
  _id t' = id → t ∈ replace_doc id t' l → _id t ∈ _id <$> l.
Proof.
  intros Hid Hin. rewrite <- (replace_doc_ids id t' l Hid).
  by apply list_elem_of_fmap_2.
Qed.

Lemma protected_id t t' : protected t' = protected t → _id t' = _id t.
Proof. unfold protected. congruence. Qed.
End find_lemmas.

(** X3.  A request that is not answered 200 has written nothing: when
    the router rejects the request, does not route it, or answers with
    any other status, the store is the store it started from. *)
Theorem failed_request_changes_nothing
    (req : request) (e : env) (st : store) (out : outcome) (st' : store) :
  dispatch router req e st = (out, st') →
  (∀ r, out = Replied r → status r ≠ 200) →
  st' = st.
Proof.
  intros Hrun Hstatus. pose proof (router_effect req e st) as H.
  rewrite Hrun in H. destruct out as [| |r]; try done.
  destruct H as (uid & _ & Hteams & Husers & [Htasks | [H200 _]]).
  - by apply store_eq.
  - by destruct (Hstatus r eq_refl).
Qed.

Lemma failed_request_changes_nothing_witness :
  let r := Scenario.http DELETE ["t1"] [] [] (Some "bob") in
  (dispatch router r Sample.world Sample.db).1
  = Replied (status_json 401 (JsonObj "msg" "Not authorized"))
  ∧ (dispatch router r Sample.world Sample.db).2 = Sample.db.
Proof.
  intros r. split; [reflexivity|].
  apply (failed_request_changes_nothing r Sample.world Sample.db
           (Replied (status_json 401 (JsonObj "msg" "Not authorized")))).
  - reflexivity.
  - intros r' Hr'. injection Hr' as <-. discriminate.
Defined.

(** X5.  No request hands a task over: as long as an id resolves to a
    task, before and after any request, the task keeps its id, its
    owning user, its team, its workspace and its creation time.  Ids are
    assumed unique in the collection. *)
Theorem tasks_never_reassigned
    (req : request) (e : env) (st : store) (id : string) (t t' : Task) :
  unique_ids st →
  List.find (has_id id) (tasks st) = Some t →
  List.find (has_id id) (tasks (dispatch router req e st).2) = Some t' →
  _id t' = _id t ∧ user t' = user t ∧ team t' = team t
  ∧ workspace t' = workspace t ∧ createdAt t' = createdAt t.
Proof.
  intros Huniq Hfind Hfind'.
  enough (protected t' = protected t) as Hp
    by (unfold protected in Hp; by simplify_eq).
  pose proof (router_effect req e st) as H.
  destruct (dispatch router req e st) as [out st'] eqn:Hrun. simpl in Hfind'.
  assert (Hsame : tasks st' = tasks st → protected t' = protected t).
  { intros Heq. rewrite Heq in Hfind'. congruence. }
  destruct out as [| |r]; [by subst; auto | by subst; auto |].
  destruct H as (uid & _ & _ & _ & [Htasks | [_ Hch]]); [auto|].
  inversion Hch as [t0 Hid0 Hu0 Hc0 Hd0 Heq
                   | id0 t0 t0' Hf0 Hp0 Heq
                   | id0 t0 Hf0 Hu0 Heq];
    rewrite <- Heq in Hfind'.
  - rewrite (find_app_Some _ _ _ _ Hfind) in Hfind'. congruence.
  - destruct (find_has_id _ _ _ Hf0) as [Hid0 _].
    assert (_id t0' = id0) by (apply protected_id in Hp0; congruence).
    destruct (decide (id = id0)) as [->|Hne].
    + rewrite (find_replace_doc id0 t0' (tasks st) t0) in Hfind' by done.
      congruence.
    + rewrite find_replace_doc_ne in Hfind' by done. congruence.
  - destruct (decide (id = id0)) as [->|Hne].
    + rewrite find_remove_doc in Hfind' by done. discriminate.
    + rewrite find_remove_doc_ne in Hfind' by done. congruence.
Qed.

Lemma tasks_never_reassigned_witness :
  let r := Scenario.http PUT ["t1"] []
             [("title", VStr "mine now"); ("user", VStr "bob");
              ("team", VStr "g1")] (Some "alice") in
  ∃ t', List.find (has_id "t1")
          (tasks (dispatch router r Sample.world Sample.db).2) = Some t'
        ∧ title t' = VStr "mine now"
        ∧ user t' = "alice" ∧ team t' = VUndefined.
Proof.
  intros r. eexists. split; [reflexivity|]. split; [reflexivity|].
  destruct (tasks_never_reassigned r Sample.world Sample.db "t1"
              (Sample.task "t1" "alice" 1 10)
              (Object_assign (Sample.task "t1" "alice" 1 10)
                 (taskData_of (body r))))
    as (_ & Hu & Ht & _); [compute_done | reflexivity | reflexivity |].
  split; [exact Hu | exact Ht].
Defined.

(** X6.  Only its owner removes a task: when an id that resolved to a
    task resolves to nothing after a request, the request was made by
    the user the task belonged to. *)
Theorem only_owner_removes
    (req : request) (e : env) (st : store) (id : string) (t : Task) :
  List.find (has_id id) (tasks st) = Some t →
  List.find (has_id id) (tasks (dispatch router req e st).2) = None →
  credentials req = Some (user t).
Proof.
  intros Hfind Hgone. pose proof (router_effect req e st) as H.
  destruct (dispatch router req e st) as [out st'] eqn:Hrun. simpl in Hgone.
  destruct out as [| |r]; [by subst; congruence | by subst; congruence |].
  destruct H as (uid & Hcred & _ & _ & [Htasks | [_ Hch]]).
  { rewrite Htasks in Hgone. congruence. }
  inversion Hch as [t0 Hid0 Hu0 Hc0 Hd0 Heq
                   | id0 t0 t0' Hf0 Hp0 Heq
                   | id0 t0 Hf0 Hu0 Heq];
    rewrite <- Heq in Hgone.
  - rewrite (find_app_Some _ _ _ _ Hfind) in Hgone. discriminate.
  - destruct (find_has_id _ _ _ Hf0) as [Hid0 _].
    assert (Hid' : _id t0' = id0) by (apply protected_id in Hp0; congruence).
    destruct (find_replace_doc_is_Some id0 id t0' (tasks st) t Hid' Hfind)
      as [x Hx]. congruence.
  - destruct (decide (id = id0)) as [->|Hne].
    + rewrite Hcred. congruence.
    + rewrite find_remove_doc_ne in Hgone by done. congruence.
Qed.

Lemma only_owner_removes_witness :
  let r := Scenario.http DELETE ["t4"] [] [] (Some "bob") in
  List.find (has_id "t4") (tasks (dispatch router r Sample.world Sample.db).2)
  = None
  ∧ credentials r = Some "bob".
Proof.
  intros r. split; [reflexivity|].
  exact (only_owner_removes r Sample.world Sample.db "t4"
           (Sample.task "t4" "bob" 9 5) eq_refl eq_refl).
Defined.

(** X7.  A task that appears under an id the collection did not hold
    was created by this request for its caller: it belongs to the
    authenticated user, carries the generated id and the current time,
    and is not completed, whatever the body asked for. *)
Theorem new_task_belongs_to_caller
    (req : request) (e : env) (st : store) (t : Task) :
  t ∈ tasks (dispatch router req e st).2 →
  _id t ∉ _id <$> tasks st →
  credentials req = Some (user t)
  ∧ _id t = fresh_id e ∧ createdAt t = now e ∧ completed t = VBool false.
Proof.
  intros Hin Hnew. pose proof (router_effect req e st) as H.
  destruct (dispatch router req e st) as [out st'] eqn:Hrun. simpl in Hin.
  assert (Hold : t ∈ tasks st → False).
  { intros Ht. apply Hnew. by apply list_elem_of_fmap_2. }
  destruct out as [| |r]; [by subst; destruct Hold
                          | by subst; destruct Hold |].
  destruct H as (uid & Hcred & _ & _ & [Htasks | [_ Hch]]).
  { rewrite Htasks in Hin. by destruct Hold. }
  inversion Hch as [t0 Hid0 Hu0 Hc0 Hd0 Heq
                   | id0 t0 t0' Hf0 Hp0 Heq
                   | id0 t0 Hf0 Hu0 Heq];
    rewrite <- Heq in Hin.
  - apply elem_of_app in Hin as [Ht | Ht]; [by destruct Hold|].
    apply list_elem_of_singleton in Ht. subst t0.
    rewrite Hcred. by repeat split; try congruence.
  - destruct (find_has_id _ _ _ Hf0) as [Hid0 _].
    assert (Hid' : _id t0' = id0) by (apply protected_id in Hp0; congruence).
    destruct Hnew. by eapply elem_of_replace_doc_ids.
  - destruct Hold. eapply elem_of_sublist; [exact Hin|].
    apply remove_doc_sublist.
Qed.

Lemma new_task_belongs_to_caller_witness :
  let r := Scenario.http POST ["g1"] []
             [("title", VStr "plan"); ("user", VStr "bob");
              ("completed", VBool true)] (Some "alice") in
  ∃ t, t ∈ tasks (dispatch router r Sample.world Sample.db).2
       ∧ title t = VStr "plan"
       ∧ credentials r = Some (user t)
       ∧ completed t = VBool false.
Proof.
  intros r.
  exists {| _id := "t9"; title := VStr "plan"; description := VUndefined;
            dueDate := VUndefined; priority := VUndefined;
            completed := VBool false; workspace := VUndefined;
            user := "alice"; team := VStr "g1"; createdAt := 1000 |}.
  assert (Hin : {| _id := "t9"; title := VStr "plan";
                   description := VUndefined; dueDate := VUndefined;
                   priority := VUndefined; completed := VBool false;
                   workspace := VUndefined; user := "alice";
                   team := VStr "g1"; createdAt := 1000 |}
                ∈ tasks (dispatch router r Sample.world Sample.db).2)
    by compute_done.
  destruct (new_task_belongs_to_caller r Sample.world Sample.db _ Hin)
    as (Hcred & _ & _ & Hdone); [compute_done|].
  split; [exact Hin|]. split; [reflexivity|]. split; [exact Hcred | exact Hdone].
Defined.

(** ** When the store does not answer *)

(** X2.  When the store does not answer, every handler that reaches it
    answers 500 and writes nothing: the text "Server Error" from the
    seven handlers that send it, the JSON message "Internal server
    error" from the status route.  [POST /] answers 500 for a body that
    passes its checks (its 400 answers are given before the store is
    reached). *)
Theorem store_failure_answers_500
    (uid : string) (req : request) (e : env) (st : store) :
  db_up e = false →
  let server_error := status_send 500 "Server Error" in
  get_root uid req e st = (server_error, st)
  ∧ get_root_again uid req e st = (server_error, st)
  ∧ put_id uid req e st = (server_error, st)
  ∧ delete_id uid req e st = (server_error, st)
  ∧ post_teamId uid req e st = (server_error, st)
  ∧ get_teamId uid req e st = (server_error, st)
  ∧ put_id_status uid req e st
    = (status_json 500 (JsonObj "message" "Internal server error"), st)
  ∧ (field (body req) "workspace" = VStr "personal"
     ∨ field (body req) "workspace" = VStr "team"
       ∧ truthy (field (body req) "team") = true →
     post_root uid req e st = (server_error, st)).
Proof.
  intros Hdown server_error.
  repeat split.
  1-7: by (unfold server_error; run_handler).
  intros Hvalid. rewrite post_root_cases. rewrite Hdown.
  destruct Hvalid as [-> | [-> ->]]; repeat case_decide; try done;
    by case_match.
Qed.

Lemma store_failure_answers_500_witness :
  let r := Sample.req [("id", "t1"); ("teamId", "g1")] []
             [("title", VStr "plan"); ("workspace", VStr "personal")] in
  put_id "alice" r Scenario.offline Sample.db
  = (status_send 500 "Server Error", Sample.db)
  ∧ put_id_status "alice" r Scenario.offline Sample.db
    = (status_json 500 (JsonObj "message" "Internal server error"),
       Sample.db)
  ∧ post_root "alice" r Scenario.offline Sample.db
    = (status_send 500 "Server Error", Sample.db).
Proof.
  intros r.
  destruct (store_failure_answers_500 "alice" r Scenario.offline Sample.db
              eq_refl) as (_ & _ & Hput & _ & _ & _ & Hstatus & Hpost).
  split; [exact Hput|]. split; [exact Hstatus|].
  apply Hpost. by left.
Defined.

(** ** Reading does not write *)

Lemma get_root_read_only uid req e st : (get_root uid req e st).2 = st.
Proof. by run_handler. Qed.

Lemma get_teamId_read_only uid req e st : (get_teamId uid req e st).2 = st.
Proof. by run_handler. Qed.

(** X4.  A [GET] request never changes the store: whatever the path,
    the query, the caller and the state of the store, the router leaves
    the three collections as they were. *)
Theorem get_requests_read_only (req : request) (e : env) (st : store) :
  verb req = GET → (dispatch router req e st).2 = st.
Proof.
  intros Hverb. unfold router, dispatch. rewrite Hverb.
  destruct (path req) as [|x [|y p]]; cbn -[get_root get_teamId]; try done.
  all: unfold auth; cbn [credentials set_params];
    destruct (credentials req) as [uid|]; [|done].
  - pose proof (get_root_read_only uid (set_params req ∅) e st) as H.
    by destruct (get_root uid (set_params req ∅) e st).
  - pose proof (get_teamId_read_only uid
                  (set_params req (<["teamId":=x]> ∅)) e st) as H.
    by destruct (get_teamId uid (set_params req (<["teamId":=x]> ∅)) e st).
Qed.

Lemma get_requests_read_only_witness :
  let r := Scenario.http GET ["g1"] [("sortBy", "priority")] []
             (Some "alice") in
  (dispatch router r Sample.world Sample.db).2 = Sample.db.
Proof.
  intros r. exact (get_requests_read_only r Sample.world Sample.db eq_refl).
Defined.

(** ** The team routes for a member *)

Section team_routes.
Implicit Types (req : request) (e : env) (st : store) (g : Team).

Lemma includes_member (xs : list string) (x : string) :
  x ∈ xs → includes xs x = true.
Proof. apply includes_elem_of. Qed.

Lemma post_teamId_member uid req e st g :
  db_up e = true →
  find_team st (params req !!! "teamId") = Some g → uid ∈ members g →
  let task :=
    {| _id := fresh_id e;
       title := field (body req) "title";
       description := field (body req) "description";
       dueDate := field (body req) "dueDate";
       priority := field (body req) "priority";
       completed := VBool false;
       workspace := VUndefined; user := uid;
       team := VStr (params req !!! "teamId");
       createdAt := now e |} in
  post_teamId uid req e st
  = match cast_new e task with
    | Some t' => (json (JsonTask t'), set_tasks st (tasks st ++ [t']))
    | None => (status_send 500 "Server Error", st)
    end.
Proof.
  intros Hup Hteam Hin task. unfold find_team in Hteam.
  unfold post_teamId, try_catch, bind, Team_findById, new_Task.
  rewrite round_trip_up by done. simpl. rewrite Hteam.
  rewrite includes_member by done. simpl. fold task.
  destruct (cast_new e task) as [t'|] eqn:Hcast.
  - by erewrite Task_insert_valid.
  - by erewrite Task_insert_invalid.
Qed.

(** What is known of a [POST /:teamId] that answered with a task. *)
Lemma post_teamId_created uid req e st st' (task : Task) :
  post_teamId uid req e st = (json (JsonTask task), st') →
  st' = set_tasks st (tasks st ++ [task])
  ∧ _id task = fresh_id e ∧ user task = uid
  ∧ team task = VStr (params req !!! "teamId")
  ∧ ∃ g, find_team st (params req !!! "teamId") = Some g ∧ uid ∈ members g.
Proof.
  unfold find_team. run_handler; intros Heq; simplify_eq.
  match goal with
  | H : cast_new _ _ = Some _ |- _ =>
      apply cast_new_Some in H as (_ & _ & Hid & ->); simpl in *
  end.
  injection Hid as <-.
  repeat split; try done.
  eexists. split; [done|]. apply includes_elem_of.
  by apply negb_false_iff.
Qed.

Lemma get_teamId_member uid req e st g :
  db_up e = true →
  find_team st (params req !!! "teamId") = Some g → uid ∈ members g →
  get_teamId uid req e st
  = (json (JsonPopulated
             (populate_user (users st)
                <$> List.filter (in_team (params req !!! "teamId"))
                      (tasks st))), st).
Proof.
  intros Hup Hteam Hin. unfold find_team in Hteam.
  unfold get_teamId, try_catch, bind, Team_findById, Task_find_populate.
  rewrite round_trip_up by done. simpl. rewrite Hteam.
  rewrite includes_member by done. simpl.
  by rewrite round_trip_up.
Qed.

Lemma elem_of_in_team (teamId : string) (l : list Task) (t : Task) :
  t ∈ List.filter (in_team teamId) l ↔ t ∈ l ∧ team t = VStr teamId.
Proof.
  rewrite !list_elem_of_In, List.filter_In. unfold in_team.
  by rewrite bool_decide_eq_true.
Qed.

Lemma populate_user_spec (us : list User) (t : Task) :
  match user_ref (populate_user us t) with
  | Some u => user_id u = user t ∧ u ∈ us
  | None => user t ∉ user_id <$> us
  end.
Proof.
  unfold populate_user. simpl.
  destruct (List.find _ us) as [u|] eqn:E.
  - apply List.find_some in E as [Hin Heq]. apply String.eqb_eq in Heq.
    split; [done | by apply list_elem_of_In].
  - intros Hin. apply list_elem_of_fmap in Hin as (u & Hu & Hin).
    apply list_elem_of_In in Hin.
    pose proof (List.find_none _ _ E u Hin) as Hne. simpl in Hne.
    apply String.eqb_neq in Hne. congruence.
Qed.

Lemma doc_populate_user (us : list User) (l : list Task) :
  doc <$> (populate_user us <$> l) = l.
Proof. rewrite <- list_fmap_compose. induction l; csimpl; congruence. Qed.

Lemma team_route_listing_aux uid req e st g :
  db_up e = true →
  find_team st (params req !!! "teamId") = Some g → uid ∈ members g →
  ∃ l,
    get_teamId uid req e st = (json (JsonPopulated l), st)
    ∧ ∀ t, t ∈ doc <$> l
           ↔ t ∈ tasks st ∧ team t = VStr (params req !!! "teamId").
Proof.
  intros Hup Hteam Hin. eexists. split; [by eapply get_teamId_member|].
  intros t. rewrite doc_populate_user. apply elem_of_in_team.
Qed.
End team_routes.

(** X8.  A member's [POST /:teamId] whose body passes the schema (a
    title that is a text and not empty, a due date that is absent or a
    date) stores one new task at the end of the collection and returns
    it: the task belongs to the member and to the team of the path, has
    no workspace, is not completed, and takes title, description, due
    date and priority from the body, the typed ones as cast; no other
    key of the body reaches it.  A body that does not pass is answered
    500 and nothing is stored.  The store is assumed to answer. *)
Theorem team_member_creates_task
    (uid : string) (req : request) (e : env) (st : store) (g : Team) :
  db_up e = true →
  find_team st (params req !!! "teamId") = Some g → uid ∈ members g →
  let title_ok := required_text (cast_string (field (body req) "title")) in
  let due := cast_date e (field (body req) "dueDate") in
  (∀ d, title_ok = true → due = Some d →
     let task :=
       {| _id := fresh_id e;
          title := cast_string (field (body req) "title");
          description := cast_string (field (body req) "description");
          dueDate := d;
          priority := field (body req) "priority";
          completed := VBool false;
          workspace := VUndefined; user := uid;
          team := VStr (params req !!! "teamId");
          createdAt := now e |} in
     post_teamId uid req e st
     = (json (JsonTask task), set_tasks st (tasks st ++ [task])))
  ∧ (title_ok = false ∨ due = None →
     post_teamId uid req e st = (status_send 500 "Server Error", st)).
Proof.
  intros Hup Hteam Hin title_ok due.
  rewrite (post_teamId_member uid req e st g Hup Hteam Hin). split.
  - intros d Htitle Hdue task.
    by erewrite cast_new_valid.
  - intros Hbad. rewrite cast_new_invalid; [done|].
    destruct Hbad as [H | H]; [by left | right; by left].
Qed.

Lemma team_member_creates_task_witness :
  let r := Sample.req [("teamId", "g1")] []
             [("title", VStr "retro"); ("workspace", VStr "personal");
              ("team", VStr "g2"); ("completed", VBool true);
              ("dueDate", VStr "1970-01-02")] in
  let untitled := Sample.req [("teamId", "g1")] [] [("priority", VNum 3)] in
  let task :=
    {| _id := "t9"; title := VStr "retro"; description := VUndefined;
       dueDate := VNum 86400000; priority := VUndefined;
       completed := VBool false; workspace := VUndefined;
       user := "alice"; team := VStr "g1"; createdAt := 1000 |} in
  post_teamId "alice" r Sample.world Sample.db
  = (json (JsonTask task), set_tasks Sample.db (tasks Sample.db ++ [task]))
  ∧ post_teamId "alice" untitled Sample.world Sample.db
    = (status_send 500 "Server Error", Sample.db).
Proof.
  intros r untitled task.
  assert (Hin : "alice" ∈ ["alice"]) by compute_done.
  destruct (team_member_creates_task "alice" r Sample.world Sample.db
              {| team_id := "g1"; members := ["alice"] |}
              eq_refl eq_refl Hin) as [Hok _].
  destruct (team_member_creates_task "alice" untitled Sample.world Sample.db
              {| team_id := "g1"; members := ["alice"] |}
              eq_refl eq_refl Hin) as [_ Hbad].
  split; [exact (Hok (VNum 86400000) eq_refl eq_refl) | apply Hbad; by left].
Defined.

(** X9.  To a member, [GET /:teamId] answers 200 with the tasks whose
    team is the team of the path, in storage order and whoever created
    them (an empty list when there are none), and leaves the store as it
    was.  Each task comes with the user document its [user] refers to,
    or with none when no such user exists.  The store is assumed to
    answer. *)
Theorem team_listing_for_member
    (uid : string) (req : request) (e : env) (st : store) (g : Team) :
  db_up e = true →
  find_team st (params req !!! "teamId") = Some g → uid ∈ members g →
  ∃ l,
    get_teamId uid req e st = (json (JsonPopulated l), st)
    ∧ doc <$> l
      = List.filter (in_team (params req !!! "teamId")) (tasks st)
    ∧ (∀ t, t ∈ doc <$> l
            ↔ t ∈ tasks st ∧ team t = VStr (params req !!! "teamId"))
    ∧ (∀ p, p ∈ l →
         match user_ref p with
         | Some u => user_id u = user (doc p) ∧ u ∈ users st
         | None => user (doc p) ∉ user_id <$> users st
         end).
Proof.
  intros Hup Hteam Hin. eexists. split; [by eapply get_teamId_member|].
  split; [apply doc_populate_user|]. split.
  - intros t. rewrite doc_populate_user. apply elem_of_in_team.
  - intros p Hp. apply list_elem_of_fmap in Hp as (t & -> & _).
    apply populate_user_spec.
Qed.

Lemma team_listing_for_member_witness :
  let r := Sample.req [("teamId", "g1")] [] [] in
  ∃ l,
    get_teamId "alice" r Sample.world Scenario.team_db
    = (json (JsonPopulated l), Scenario.team_db)
    ∧ _id <$> (doc <$> l) = ["t5"]
    ∧ user_ref <$> l = [None].
Proof.
  intros r.
  destruct (team_listing_for_member "alice" r Sample.world Scenario.team_db
              {| team_id := "g1"; members := ["alice"; "carol"] |})
    as (l & Hget & Hdoc & _); [reflexivity | reflexivity | compute_done |].
  exists l. split; [exact Hget|]. split; [by rewrite Hdoc|].
  vm_compute in Hget. by injection Hget as <-.
Defined.

(** ** Creation followed by the team listing *)

(** X10.  A task a member created through [POST /:teamId] (the
    request was answered with the task) is in the list [GET /:teamId]
    then returns to every member of the team, and in the list [GET /]
    returns to its creator: the personal listing selects on the user
    alone, so it carries the creator's team tasks as well.  The store is
    assumed to answer the two listings. *)
Theorem team_task_listed_after_creation
    (uid other : string) (req q q' : request) (e e1 e2 : env)
    (st st' : store) (g : Team) (task : Task) :
  post_teamId uid req e st = (json (JsonTask task), st') →
  db_up e1 = true → db_up e2 = true →
  find_team st (params req !!! "teamId") = Some g → other ∈ members g →
  params q !!! "teamId" = params req !!! "teamId" →
  (∃ l, get_teamId other q e1 st' = (json (JsonPopulated l), st')
        ∧ task ∈ doc <$> l)
  ∧ (∃ l, get_root uid q' e2 st' = (json (JsonTasks l), st') ∧ task ∈ l).
Proof.
  intros Hpost Hup1 Hup2 Hteam Hother Hq.
  apply post_teamId_created in Hpost as (-> & _ & Huser & Hteam' & _).
  split.
  - destruct (team_route_listing_aux other q e1
                (set_tasks st (tasks st ++ [task])) g)
      as (l & Hget & Hmem); [done | by rewrite Hq | done |].
    exists l. split; [exact Hget|]. apply Hmem. split.
    + simpl. apply elem_of_app. right. apply list_elem_of_here.
    + by rewrite Hq.
  - eexists. split; [by apply get_root_up|].
    apply elem_of_listing. split; [|done].
    simpl. apply elem_of_app. right. apply list_elem_of_here.
Qed.

Lemma team_task_listed_after_creation_witness :
  let create := Sample.req [("teamId", "g1")] [] [("title", VStr "demo")] in
  let list := Sample.req [("teamId", "g1")] [] [] in
  let task :=
    {| _id := "t9"; title := VStr "demo"; description := VUndefined;
       dueDate := VUndefined; priority := VUndefined;
       completed := VBool false; workspace := VUndefined;
       user := "carol"; team := VStr "g1"; createdAt := 1000 |} in
  let st' := set_tasks Scenario.team_db (tasks Scenario.team_db ++ [task]) in
  post_teamId "carol" create Sample.world Scenario.team_db
  = (json (JsonTask task), st')
  ∧ (∃ l, get_teamId "alice" list Sample.world st'
          = (json (JsonPopulated l), st')
          ∧ task ∈ doc <$> l)
  ∧ (∃ l, get_root "carol" list Sample.world st' = (json (JsonTasks l), st')
          ∧ task ∈ l).
Proof.
  intros create list task st'. split; [reflexivity|].
  apply (team_task_listed_after_creation "carol" "alice" create list list
           Sample.world Sample.world Sample.world Scenario.team_db st'
           {| team_id := "g1"; members := ["alice"; "carol"] |} task);
    [reflexivity | reflexivity | reflexivity | reflexivity
    | compute_done | reflexivity].
Defined.

(** X11.  [POST /] feeds the team listing without the membership check:
    a task any authenticated user created with [workspace == "team"] and
    the id of an existing team as its team (the request was answered
    with the task) is in the list [GET /:teamId] returns to the members
    of that team, whether or not its creator is one of them.  The store
    is assumed to answer the listing. *)
Theorem generic_route_feeds_team_listing
    (uid member : string) (req q : request) (e e1 : env)
    (st st' : store) (g : Team) (task : Task) :
  post_root uid req e st = (json (JsonTask task), st') →
  field (body req) "workspace" = VStr "team" →
  field (body req) "team" = VStr (params q !!! "teamId") →
  db_up e1 = true →
  find_team st (params q !!! "teamId") = Some g → member ∈ members g →
  user task = uid
  ∧ ∃ l, get_teamId member q e1 st' = (json (JsonPopulated l), st')
         ∧ task ∈ doc <$> l.
Proof.
  intros Hpost Hws Hteam Hup1 Hfind Hmember.
  apply post_root_created in Hpost as (-> & _ & Huser & _ & _ & Hteam').
  split; [done|].
  destruct (team_route_listing_aux member q e1
              (set_tasks st (tasks st ++ [task])) g)
    as (l & Hget & Hmem); [done | done | done |].
  exists l. split; [exact Hget|]. apply Hmem. split.
  - simpl. apply elem_of_app. right. apply list_elem_of_here.
  - rewrite Hteam'; [done|]. by rewrite Hws.
Qed.

Lemma generic_route_feeds_team_listing_witness :
  let create := Sample.req [] []
                  [("title", VStr "intrusion"); ("workspace", VStr "team");
                   ("team", VStr "g1")] in
  let list := Sample.req [("teamId", "g1")] [] [] in
  let task :=
    {| _id := "t9"; title := VStr "intrusion"; description := VUndefined;
       dueDate := VUndefined; priority := VUndefined;
       completed := VBool false; workspace := VStr "team";
       user := "bob"; team := VStr "g1"; createdAt := 1000 |} in
  let st' := set_tasks Sample.db (tasks Sample.db ++ [task]) in
  ("bob" ∉ ["alice"])
  ∧ post_root "bob" create Sample.world Sample.db = (json (JsonTask task), st')
  ∧ (∃ l, get_teamId "alice" list Sample.world st'
          = (json (JsonPopulated l), st')
          ∧ task ∈ doc <$> l).
Proof.
  intros create list task st'. split; [compute_done|].
  split; [reflexivity|].
  apply (generic_route_feeds_team_listing "bob" "alice" create list
           Sample.world Sample.world Sample.db st'
           {| team_id := "g1"; members := ["alice"] |} task);
    [reflexivity | reflexivity | reflexivity | reflexivity | reflexivity
    | compute_done].
Defined.

(** X12.  A task created through [POST /] with
    [workspace == "personal"] (the request was answered with the task)
    has no team, whatever team the body names: it is in no list
    [GET /:teamId] returns. *)
Theorem personal_task_in_no_team_listing
    (uid who : string) (req q : request) (e e1 : env)
    (st st' : store) (task : Task) :
  post_root uid req e st = (json (JsonTask task), st') →
  field (body req) "workspace" = VStr "personal" →
  team task = VUndefined
  ∧ ∀ l, sent (get_teamId who q e1 st').1 = JsonPopulated l →
         task ∉ doc <$> l.
Proof.
  intros Hpost Hws.
  apply post_root_created in Hpost as (-> & _ & _ & _ & Hteam & _).
  specialize (Hteam Hws). split; [done|].
  intros l Hsent Hin.
  revert Hsent. run_handler; intros Hsent; try discriminate.
  injection Hsent as <-. rewrite doc_populate_user in Hin.
  apply elem_of_in_team in Hin as [_ Hteam']. congruence.
Qed.

Lemma personal_task_in_no_team_listing_witness :
  let create := Sample.req [] []
                  [("title", VStr "solo"); ("workspace", VStr "personal");
                   ("team", VStr "g1")] in
  let list := Sample.req [("teamId", "g1")] [] [] in
  let task :=
    {| _id := "t9"; title := VStr "solo"; description := VUndefined;
       dueDate := VUndefined; priority := VUndefined;
       completed := VBool false; workspace := VStr "personal";
       user := "alice"; team := VUndefined; createdAt := 1000 |} in
  let st' := set_tasks Scenario.team_db (tasks Scenario.team_db ++ [task]) in
  post_root "alice" create Sample.world Scenario.team_db
  = (json (JsonTask task), st')
  ∧ team task = VUndefined
  ∧ ∀ l, sent (get_teamId "alice" list Sample.world st').1 = JsonPopulated l →
         task ∉ doc <$> l.
Proof.
  intros create list task st'. split; [reflexivity|].
  apply (personal_task_in_no_team_listing "alice" "alice" create list
           Sample.world Sample.world Scenario.team_db st' task);
    reflexivity.
Defined.

(** ** Deleting *)

Section removal.
Implicit Types (l : list Task) (t : Task) (id : string).

Lemma remove_doc_snoc id l t :
  id ∉ _id <$> l → _id t = id → remove_doc id (l ++ [t]) = l.
Proof.
  intros Hnew Hid. induction l as [|x l IH]; csimpl in *.
  - by rewrite (proj2 (has_id_true id t) Hid).
  - apply not_elem_of_cons in Hnew as [Hx Hl].
    rewrite (proj2 (has_id_false id x)) by congruence. by rewrite IH.
Qed.

Lemma find_snoc_new id l t :
  id ∉ _id <$> l → _id t = id → List.find (has_id id) (l ++ [t]) = Some t.
Proof.
  intros Hnew Hid. induction l as [|x l IH]; csimpl in *.
  - by rewrite (proj2 (has_id_true id t) Hid).
  - apply not_elem_of_cons in Hnew as [Hx Hl].
    rewrite (proj2 (has_id_false id x)) by congruence. by apply IH.
Qed.

Lemma remove_doc_filter id l :
  NoDup (_id <$> l) →
  remove_doc id l = List.filter (λ t, negb (has_id id t)) l.
Proof.
  induction l as [|x l IH]; csimpl; [done|].
  rewrite NoDup_cons. intros [Hx Hl].
  destruct (has_id id x) eqn:E; simpl.
  - apply has_id_true in E. subst id.
    symmetry. apply List.forallb_filter_id, List.forallb_forall.
    intros y Hy. apply negb_true_iff, has_id_false. intros Heq.
    apply Hx. rewrite <- Heq. apply list_elem_of_fmap_2.
    by apply list_elem_of_In.
  - by rewrite IH.
Qed.

Lemma delete_id_by_owner (req : request) (e : env) (st : store) t :
  db_up e = true →
  List.find (has_id (params req !!! "id")) (tasks st) = Some t →
  delete_id (user t) req e st
  = (json (JsonObj "msg" "Task removed"),
     set_tasks st (remove_doc (params req !!! "id") (tasks st))).
Proof.
  intros Hup Hfind. destruct (find_has_id _ _ _ Hfind) as [Hid _].
  unfold delete_id, try_catch, bind, Task_findById, Task_deleteOne.
  rewrite round_trip_up by done. simpl. rewrite Hfind, String.eqb_refl. simpl.
  rewrite round_trip_up by done. simpl. by rewrite Hid.
Qed.

Lemma not_found_everywhere (uid : string) (req : request) (e : env)
    (st : store) :
  db_up e = true →
  List.find (has_id (params req !!! "id")) (tasks st) = None →
  put_id uid req e st = (status_json 404 (JsonObj "msg" "Task not found"), st)
  ∧ delete_id uid req e st
    = (status_json 404 (JsonObj "msg" "Task not found"), st)
  ∧ (is_Some (cast_boolean (field (body req) "completed")) →
     put_id_status uid req e st
     = (status_json 404 (JsonObj "message" "Task not found"), st)).
Proof.
  intros Hup Hnone. split; [|split].
  - unfold put_id, try_catch, bind, Task_findById.
    rewrite !round_trip_up by done. simpl. by rewrite Hnone.
  - unfold delete_id, try_catch, bind, Task_findById.
    rewrite !round_trip_up by done. simpl. by rewrite Hnone.
  - intros [flag Hflag].
    unfold put_id_status, try_catch, bind, Task_findByIdAndUpdate.
    rewrite Hflag. rewrite !round_trip_up by done. simpl. by rewrite Hnone.
Qed.
End removal.

(** X13.  Creating a task and deleting it again gives back the store:
    after a [POST /] that was answered with the created task,
    [DELETE /:id] by the same user on the id of that task answers "Task
    removed" and leaves the store exactly as it was before the
    creation.  The generated id is assumed new and the store to answer
    the delete. *)
Theorem create_then_delete_restores
    (uid : string) (req del : request) (e e1 : env)
    (st st' : store) (task : Task) :
  post_root uid req e st = (json (JsonTask task), st') →
  db_up e1 = true →
  fresh_id e ∉ _id <$> tasks st →
  params del !!! "id" = _id task →
  delete_id uid del e1 st' = (json (JsonObj "msg" "Task removed"), st).
Proof.
  intros Hpost Hup1 Hnew Hdel.
  apply post_root_created in Hpost as (-> & Hid & Huser & _).
  rewrite <- Hid in Hnew.
  assert (Hfind : List.find (has_id (params del !!! "id"))
                    (tasks (set_tasks st (tasks st ++ [task]))) = Some task).
  { rewrite Hdel. simpl. by apply find_snoc_new. }
  pose proof (delete_id_by_owner del e1 _ task Hup1 Hfind) as Hrm.
  rewrite Huser in Hrm. rewrite Hrm. f_equal.
  rewrite Hdel. simpl. rewrite remove_doc_snoc by done. by destruct st.
Qed.

Lemma create_then_delete_restores_witness :
  let create := Sample.req [] []
                  [("title", VStr "plan"); ("workspace", VStr "personal")] in
  let del := Sample.req [("id", "t9")] [] [] in
  let task :=
    {| _id := "t9"; title := VStr "plan"; description := VUndefined;
       dueDate := VUndefined; priority := VUndefined;
       completed := VBool false; workspace := VStr "personal";
       user := "bob"; team := VUndefined; createdAt := 1000 |} in
  let st' := set_tasks Sample.db (tasks Sample.db ++ [task]) in
  post_root "bob" create Sample.world Sample.db = (json (JsonTask task), st')
  ∧ delete_id "bob" del Sample.world st'
    = (json (JsonObj "msg" "Task removed"), Sample.db).
Proof.
  intros create del task st'. split; [reflexivity|].
  apply (create_then_delete_restores "bob" create del Sample.world
           Sample.world Sample.db st' task);
    [reflexivity | reflexivity | compute_done | reflexivity].
Defined.

(** X14.  When its owner deletes a task, exactly that task leaves the
    collection, the others staying in their order, and the id is gone
    for every route that takes one: a second [DELETE] and a [PUT] on it
    answer 404 and write nothing, and so does a status update whose
    [completed] value is absent or a boolean (one that is not a boolean
    is answered 500, as for any id).  Ids are assumed unique and the
    store to answer. *)
Theorem deleted_task_is_gone
    (uid : string) (req : request) (e e1 : env) (st : store) (t : Task) :
  db_up e = true → db_up e1 = true → unique_ids st →
  List.find (has_id (params req !!! "id")) (tasks st) = Some t →
  let id := params req !!! "id" in
  let st' := (delete_id (user t) req e st).2 in
  tasks st' = List.filter (λ x, negb (has_id id x)) (tasks st)
  ∧ delete_id uid req e1 st'
    = (status_json 404 (JsonObj "msg" "Task not found"), st')
  ∧ put_id uid req e1 st'
    = (status_json 404 (JsonObj "msg" "Task not found"), st')
  ∧ (is_Some (cast_boolean (field (body req) "completed")) →
     put_id_status uid req e1 st'
     = (status_json 404 (JsonObj "message" "Task not found"), st'))
  ∧ (cast_boolean (field (body req) "completed") = None →
     put_id_status uid req e1 st'
     = (status_json 500 (JsonObj "message" "Internal server error"), st')).
Proof.
  intros Hup Hup1 Huniq Hfind id st'.
  unfold st'. rewrite (delete_id_by_owner req e st t Hup Hfind). simpl.
  fold id. split; [by apply remove_doc_filter|].
  assert (Hgone : List.find (has_id (params req !!! "id"))
                    (tasks (set_tasks st (remove_doc id (tasks st)))) = None).
  { simpl. by apply find_remove_doc. }
  destruct (not_found_everywhere uid req e1 _ Hup1 Hgone) as (Hput & Hdel & Hst).
  split; [done|]. split; [done|]. split; [done|].
  intros Hbad. unfold put_id_status, try_catch, bind, Task_findByIdAndUpdate.
  by rewrite Hbad.
Qed.

Lemma deleted_task_is_gone_witness :
  let r := Sample.req [("id", "t2")] [] [("completed", VBool true)] in
  let st' := (delete_id "alice" r Sample.world Sample.db).2 in
  _id <$> tasks st' = ["t1"; "t3"; "t4"]
  ∧ delete_id "alice" r Sample.world st'
    = (status_json 404 (JsonObj "msg" "Task not found"), st')
  ∧ put_id_status "bob" r Sample.world st'
    = (status_json 404 (JsonObj "message" "Task not found"), st').
Proof.
  intros r st'.
  assert (Huniq : unique_ids Sample.db) by compute_done.
  destruct (deleted_task_is_gone "alice" r Sample.world Sample.world
              Sample.db (Sample.task "t2" "alice" 5 30)
              eq_refl eq_refl Huniq eq_refl) as (Htasks & Hdel & _ & _).
  destruct (deleted_task_is_gone "bob" r Sample.world Sample.world
              Sample.db (Sample.task "t2" "alice" 5 30)
              eq_refl eq_refl Huniq eq_refl) as (_ & _ & _ & Hstatus & _).
  split; [|split; [exact Hdel | apply Hstatus; by eexists]].
  unfold st'. change "alice" with (user (Sample.task "t2" "alice" 5 30)).
  by rewrite Htasks.
Defined.

(** ** Repeating an update *)

Section idempotence.
Implicit Types (l : list Task) (t : Task) (id : string).

Lemma replace_doc_again id t' l :
  _id t' = id → replace_doc id t' (replace_doc id t' l) = replace_doc id t' l.
Proof.
  intros Hid. induction l as [|x l IH]; simpl; [done|].
  destruct (has_id id x) eqn:E; simpl.
  - by rewrite (proj2 (has_id_true id t') Hid).
  - by rewrite E, IH.
Qed.

Lemma apply_completed_again (v : value) t :
  apply_completed v (apply_completed v t) = apply_completed v t.
Proof. by destruct v. Qed.

Lemma Object_assign_again t (d : TaskData) :
  Object_assign (Object_assign t d) d = Object_assign t d.
Proof. done. Qed.

(** What the merge keeps of the stored task is what the cast keeps of
    the merged one, so merging the same fields into the saved task gives
    the same task again. *)
Lemma Object_assign_saved (e : env) t (d : TaskData) (saved : Task) :
  cast_assigned e (Object_assign t d) = Some saved →
  Object_assign saved d = Object_assign t d.
Proof.
  intros H. apply cast_assigned_keeps in H as (H1 & H2 & H3 & H4 & H5).
  unfold Object_assign. by rewrite H1, H2, H3, H4, H5.
Qed.
End idempotence.

(** X15.  Both update routes are idempotent: sending the same
    [PUT /:id] or the same [PUT /:id/status] a second time, under the
    same conditions, gives the same response and leaves the store as the
    first left it.  This holds on every branch: not found, not
    authorized, store failure and success. *)
Theorem update_routes_idempotent
    (uid : string) (req : request) (e : env) (st : store) :
  put_id uid req e (put_id uid req e st).2 = put_id uid req e st
  ∧ put_id_status uid req e (put_id_status uid req e st).2
    = put_id_status uid req e st.
Proof.
  split.
  - destruct (db_up e) eqn:Hup.
    2:{ unfold put_id, try_catch, bind, Task_findById.
        by rewrite !round_trip_down. }
    destruct (List.find (has_id (params req !!! "id")) (tasks st))
      as [t|] eqn:Hfind.
    2:{ destruct (not_found_everywhere uid req e st Hup Hfind) as [-> _].
        simpl. by destruct (not_found_everywhere uid req e st Hup Hfind)
          as [-> _]. }
    destruct (find_has_id _ _ _ Hfind) as [Hid _].
    destruct (decide (user t = uid)) as [<-|Hne].
    + rewrite (put_id_by_owner req e st t Hup Hfind).
      destruct (cast_assigned e (Object_assign t (taskData_of (body req))))
        as [saved|] eqn:Hcast; simpl.
      2:{ rewrite (put_id_by_owner req e st t Hup Hfind). by rewrite Hcast. }
      pose proof (cast_assigned_keeps _ _ _ Hcast) as (Hsid & Hsuser & _).
      simpl in Hsid, Hsuser.
      assert (Hfind' : List.find (has_id (params req !!! "id"))
                (tasks (set_tasks st
                   (replace_doc (params req !!! "id") saved (tasks st))))
              = Some saved).
      { simpl. eapply find_replace_doc; [done | congruence]. }
      pose proof (put_id_by_owner req e _ saved Hup Hfind') as H.
      rewrite Hsuser in H. rewrite H.
      rewrite (Object_assign_saved e t _ saved Hcast), Hcast. simpl.
      rewrite replace_doc_again; [done | congruence].
    + apply String.eqb_neq in Hne.
      assert (H : ∀ s, List.find (has_id (params req !!! "id")) (tasks s)
                       = Some t →
                  put_id uid req e s
                  = (status_json 401 (JsonObj "msg" "Not authorized"), s)).
      { intros s Hs. unfold put_id, try_catch, bind, Task_findById.
        rewrite round_trip_up by done. simpl. by rewrite Hs, Hne. }
      rewrite (H st Hfind). simpl. by apply H.
  - destruct (cast_boolean (field (body req) "completed")) as [v|] eqn:Hcast.
    2:{ unfold put_id_status, try_catch, bind, Task_findByIdAndUpdate.
        by rewrite !Hcast. }
    destruct (db_up e) eqn:Hup.
    2:{ unfold put_id_status, try_catch, bind, Task_findByIdAndUpdate.
        rewrite Hcast. by rewrite !round_trip_down. }
    destruct (List.find (has_id (params req !!! "id")) (tasks st))
      as [t|] eqn:Hfind.
    2:{ assert (Hv : is_Some (cast_boolean (field (body req) "completed")))
          by (by eexists).
        destruct (not_found_everywhere uid req e st Hup Hfind) as (_ & _ & H).
        rewrite (H Hv). simpl. by apply H. }
    destruct (find_has_id _ _ _ Hfind) as [Hid _].
    set (t' := apply_completed v t).
    assert (Hid' : _id t' = params req !!! "id").
    { unfold t'. by destruct v. }
    assert (H : ∀ s t0, List.find (has_id (params req !!! "id")) (tasks s)
                        = Some t0 →
                put_id_status uid req e s
                = (status_json 200 (JsonTask (apply_completed v t0)),
                   set_tasks s (replace_doc (params req !!! "id")
                                  (apply_completed v t0) (tasks s)))).
    { intros s t0 Hs.
      unfold put_id_status, try_catch, bind, Task_findByIdAndUpdate.
      rewrite Hcast. rewrite round_trip_up by done. simpl. by rewrite Hs. }
    rewrite (H st t Hfind). simpl. fold t'.
    rewrite (H _ t').
    2:{ simpl. by eapply find_replace_doc. }
    unfold t'. rewrite apply_completed_again. fold t'. simpl.
    by rewrite replace_doc_again.
Qed.

(** ** The frame of the routes that take an id *)

Lemma set_completed_same (t : Task) : set_completed t (completed t) = t.
Proof. by destruct t. Qed.

Lemma apply_completed_set (v : value) (t : Task) :
  apply_completed v t = set_completed t (completed (apply_completed v t)).
Proof. destruct v; simpl; by rewrite ?set_completed_same. Qed.

(** X16.  [PUT /:id], [DELETE /:id] and [PUT /:id/status] touch no task
    but the one the path names: every other id resolves after the
    request to what it resolved to before. *)
Theorem other_tasks_untouched
    (uid : string) (req : request) (e : env) (st : store) (id0 : string) :
  id0 ≠ params req !!! "id" →
  List.find (has_id id0) (tasks (put_id uid req e st).2)
  = List.find (has_id id0) (tasks st)
  ∧ List.find (has_id id0) (tasks (delete_id uid req e st).2)
    = List.find (has_id id0) (tasks st)
  ∧ List.find (has_id id0) (tasks (put_id_status uid req e st).2)
    = List.find (has_id id0) (tasks st).
Proof.
  intros Hne. split; [|split].
  - destruct (put_id_store uid req e st) as [-> | (t & t' & Hf & Hp & ->)];
      [done|]. simpl.
    destruct (find_has_id _ _ _ Hf) as [Hid _].
    rewrite find_replace_doc_ne; [done | done |].
    apply identity_protected in Hp. unfold identity in Hp. congruence.
  - run_handler; try done.
    match goal with
    | H : List.find _ _ = Some ?t |- _ =>
        destruct (find_has_id _ _ _ H) as [Hid _]
    end.
    rewrite Hid. by rewrite find_remove_doc_ne.
  - destruct (put_id_status_store uid req e st)
      as [-> | (t & flag & Hf & ->)]; [done|]. simpl.
    destruct (find_has_id _ _ _ Hf) as [Hid _].
    rewrite find_replace_doc_ne; [done | done |].
    by destruct flag.
Qed.

Lemma other_tasks_untouched_witness :
  let r := Sample.req [("id", "t1")] [] [("completed", VBool true)] in
  List.find (has_id "t2") (tasks (put_id "alice" r Sample.world Sample.db).2)
  = Some (Sample.task "t2" "alice" 5 30)
  ∧ List.find (has_id "t2")
      (tasks (delete_id "alice" r Sample.world Sample.db).2)
    = Some (Sample.task "t2" "alice" 5 30).
Proof.
  intros r.
  destruct (other_tasks_untouched "alice" r Sample.world Sample.db "t2")
    as (Hput & Hdel & _); [discriminate|].
  rewrite Hput, Hdel. by split.
Defined.

(** X17.  The status route changes [completed] and nothing else: for
    every request, a task that was stored is stored afterwards with the
    same title, description, due date, priority, owner, team, workspace,
    id and creation time. *)
Theorem status_update_touches_completed_only
    (uid : string) (req : request) (e : env) (st : store)
    (id0 : string) (t : Task) :
  List.find (has_id id0) (tasks st) = Some t →
  ∃ t', List.find (has_id id0) (tasks (put_id_status uid req e st).2)
        = Some t'
        ∧ t' = set_completed t (completed t').
Proof.
  intros Hfind.
  destruct (put_id_status_store uid req e st)
    as [-> | (t0 & flag & Hf0 & ->)].
  - exists t. split; [done|]. by rewrite set_completed_same.
  - simpl. destruct (find_has_id _ _ _ Hf0) as [Hid0 _].
    destruct (decide (id0 = params req !!! "id")) as [->|Hne].
    + assert (t0 = t) as -> by congruence.
      exists (apply_completed flag t). split.
      * eapply find_replace_doc; [done|]. by destruct flag.
      * apply apply_completed_set.
    + exists t. split; [|by rewrite set_completed_same].
      rewrite find_replace_doc_ne; [done | done |]. by destruct flag.
Qed.

Lemma status_update_touches_completed_only_witness :
  let r := Sample.req [("id", "t1")] []
             [("completed", VBool true); ("title", VStr "renamed");
              ("description", VNull)] in
  List.find (has_id "t1")
    (tasks (put_id_status "bob" r Sample.world Sample.db).2)
  = Some (set_completed (Sample.task "t1" "alice" 1 10) (VBool true)).
Proof.
  intros r.
  destruct (status_update_touches_completed_only "bob" r Sample.world
              Sample.db "t1" (Sample.task "t1" "alice" 1 10) eq_refl)
    as (t' & Hfind & Heq).
  rewrite Hfind. f_equal. rewrite Heq. f_equal.
  vm_compute in Hfind. by injection Hfind as <-.
Defined.

Lemma router_preserves_unique_ids_witness :
  let r := Scenario.http POST [] []
             [("title", VStr "plan"); ("workspace", VStr "personal")]
             (Some "alice") in
  unique_ids (dispatch router r Sample.world Sample.db).2
  ∧ List.length (tasks (dispatch router r Sample.world Sample.db).2) = 5%nat.
Proof.
  intros r. split; [|reflexivity].
  apply (router_preserves_unique_ids r Sample.world Sample.db);
    compute_done.
Defined.
